(** * Floor-seek controller of the lift sketch ([lift_control.ino])

    A shallow embedding of the distance-gated motor-control loops of the
    ESP8266 lift sketch and the properties of its three seek handlers
    ([Forward], [Backward], [Left]), of the [/Stop] route and of the
    ultrasonic reader [distance()].

    Numbers are modelled as the sketch has them: [long] is a 32-bit
    two's-complement integer, [double] is IEEE 754 binary64 and [float]
    is binary32, both taken from the executable specification of
    floating-point arithmetic of the core library.  The numeric part
    relates the [float] that [distance()] returns to the rational number
    the conversion formula denotes, and from it gives the echo durations
    on which each handler acts.  The routes [/] and [/Stop] and the main
    loop are modelled with the requests that arrive. *)

From Stdlib Require Import ZArith QArith Qpower Qabs Bool List String Lia Lqa.
From Stdlib Require Import Floats.SpecFloat.
Import ListNotations.

Local Open Scope Z_scope.

(** ** IEEE 754 numbers *)

Module IEEE.

(** [double]: prec = 53, emax = 1024; [float]: prec = 24, emax = 128. *)
Definition double_of_Z (n : Z) : spec_float := binary_normalize 53 1024 n 0 false.
Definition float_of_Z (n : Z) : spec_float := binary_normalize 24 128 n 0 false.

(** A decimal literal [num/den] of type [double] is the correctly rounded
    quotient of two exactly representable integers. *)
Definition double_lit (num den : Z) : spec_float :=
  SFdiv 53 1024 (double_of_Z num) (double_of_Z den).

(** Conversion on assignment of a [double] expression to a [float]. *)
Definition float_of_double (x : spec_float) : spec_float :=
  match x with
  | S754_finite s m e => binary_round 24 128 s m e
  | _ => x
  end.

Definition dmul := SFmul 53 1024.
Definition ddiv := SFdiv 53 1024.
Definition dsub := SFsub 53 1024.

(** The real number a finite value denotes: [(-1)^s * m * 2^e]. *)
Definition finite_value (s : bool) (m : positive) (e : Z) : Q :=
  match e with
  | Z0 => inject_Z (cond_Zopp s (Zpos m))
  | Zpos p => inject_Z (cond_Zopp s (Zpos m) * Z.pow_pos 2 p)
  | Zneg p => Qmake (cond_Zopp s (Zpos m)) (Pos.pow 2 p)
  end.

(** Extended reals: what a comparison looks at. *)
Inductive xreal :=
| XNan
| XNeg
| XFin (q : Q)
| XPos.

Definition value (x : spec_float) : xreal :=
  match x with
  | S754_nan => XNan
  | S754_infinity true => XNeg
  | S754_infinity false => XPos
  | S754_zero _ => XFin 0
  | S754_finite s m e => XFin (finite_value s m e)
  end.

Definition real_of (x : spec_float) : Q :=
  match value x with
  | XFin q => q
  | _ => 0%Q
  end.

(** Comparison of two operands after the usual arithmetic conversions.
    The conversions [int -> float] and [float -> double] are exact, so the
    comparison is the comparison of the denoted values; a NaN is
    unordered. *)
Definition xcompare (a b : xreal) : option comparison :=
  match a, b with
  | XNan, _ | _, XNan => None
  | XFin p, XFin q => Some (p ?= q)%Q
  | XNeg, XNeg => Some Eq
  | XNeg, _ => Some Lt
  | _, XNeg => Some Gt
  | XPos, XPos => Some Eq
  | XPos, _ => Some Gt
  | _, XPos => Some Lt
  end.

Definition fcompare (a b : spec_float) : option comparison :=
  xcompare (value a) (value b).

Definition flt (a b : spec_float) : bool :=
  match fcompare a b with
  | Some Lt => true
  | _ => false
  end.

Definition fle (a b : spec_float) : bool :=
  match fcompare a b with
  | Some (Lt | Eq) => true
  | _ => false
  end.

Definition fgt (a b : spec_float) : bool := flt b a.
Definition fge (a b : spec_float) : bool := fle b a.

End IEEE.

Import IEEE.

(** ** The board: output lines, globals of the sketch, observable events *)

Inductive level := LOW | HIGH.

(** The lines the sketch drives or reads.  [D1] and [D2] are the two motor
    direction inputs of the H-bridge, [trigPin] (GPIO 14) and [echoPin]
    (GPIO 12) belong to the ultrasonic sensor. *)
Inductive pin := D1 | D2 | trigPin | echoPin.

Inductive event :=
| DigitalWrite (p : pin) (v : level)
| DelayMicroseconds (us : Z)
| Delay (ms : Z)
| SerialPrint (text : string)
| SerialPrintlnFloat (x : spec_float)
| ServerSend (code : Z) (content_type body : string).

Record board := mkBoard {
  pinD1 : level;
  pinD2 : level;
  pinTrig : level;
  duration : Z;               (* long duration *)
  distanceCm : spec_float;    (* float distanceCm *)
  distance1 : spec_float;     (* float distance1 *)
  page : string;              (* String page *)
  page2 : string;             (* String page2 *)
  trace : list event          (* newest event first *)
}.

(** ** A state monad over the board *)

Definition io (A : Type) : Type := board -> A * board.

Definition ret {A} (a : A) : io A := fun s => (a, s).

Definition bind {A B} (c : io A) (k : A -> io B) : io B :=
  fun s => let (a, s') := c s in k a s'.

Notation "x <- c ;; k" := (bind c (fun x => k))
  (at level 61, c at next level, right associativity).
Notation "c ;; k" := (bind c (fun _ => k))
  (at level 61, right associativity).

Definition load {A} (field : board -> A) : io A := fun s => (field s, s).

Definition emit (e : event) (s : board) : board :=
  mkBoard (pinD1 s) (pinD2 s) (pinTrig s) (duration s) (distanceCm s)
          (distance1 s) (page s) (page2 s) (e :: trace s).

Definition drive (p : pin) (v : level) (s : board) : board :=
  match p with
  | D1 => mkBoard v (pinD2 s) (pinTrig s) (duration s) (distanceCm s)
                  (distance1 s) (page s) (page2 s) (trace s)
  | D2 => mkBoard (pinD1 s) v (pinTrig s) (duration s) (distanceCm s)
                  (distance1 s) (page s) (page2 s) (trace s)
  | trigPin => mkBoard (pinD1 s) (pinD2 s) v (duration s) (distanceCm s)
                  (distance1 s) (page s) (page2 s) (trace s)
  | echoPin => s
  end.

Definition digitalWrite (p : pin) (v : level) : io unit :=
  fun s => (tt, emit (DigitalWrite p v) (drive p v s)).

Definition delayMicroseconds (us : Z) : io unit :=
  fun s => (tt, emit (DelayMicroseconds us) s).

Definition delay (ms : Z) : io unit :=
  fun s => (tt, emit (Delay ms) s).

Definition Serial_print (text : string) : io unit :=
  fun s => (tt, emit (SerialPrint text) s).

Definition Serial_println (x : spec_float) : io unit :=
  fun s => (tt, emit (SerialPrintlnFloat x) s).

Definition server_send (code : Z) (content_type body : string) : io unit :=
  fun s => (tt, emit (ServerSend code content_type body) s).

Definition store_duration (t : Z) : io unit :=
  fun s => (tt, mkBoard (pinD1 s) (pinD2 s) (pinTrig s) t (distanceCm s)
                        (distance1 s) (page s) (page2 s) (trace s)).

Definition store_distanceCm (x : spec_float) : io unit :=
  fun s => (tt, mkBoard (pinD1 s) (pinD2 s) (pinTrig s) (duration s) x
                        (distance1 s) (page s) (page2 s) (trace s)).

Definition store_distance1 (x : spec_float) : io unit :=
  fun s => (tt, mkBoard (pinD1 s) (pinD2 s) (pinTrig s) (duration s)
                        (distanceCm s) x (page s) (page2 s) (trace s)).

Definition store_page2 (text : string) : io unit :=
  fun s => (tt, mkBoard (pinD1 s) (pinD2 s) (pinTrig s) (duration s)
                        (distanceCm s) (distance1 s) (page s) text (trace s)).

(** ** The ultrasonic reader *)

(** [#define SOUND_VELOCITY 0.034] *)
Definition SOUND_VELOCITY : spec_float := double_lit 34 1000.

(** Storing the [unsigned long] result of [pulseIn] in a [long]. *)
Definition to_long (z : Z) : Z := (z + 2 ^ 31) mod 2 ^ 32 - 2 ^ 31.

(** [distance()]; [echo] is what [pulseIn(echoPin, HIGH)] returns, the
    width of the echo pulse in microseconds, 0 when no pulse was seen. *)
Definition distance (echo : Z) : io spec_float :=
  digitalWrite trigPin LOW ;;
  delayMicroseconds 2 ;;
  digitalWrite trigPin HIGH ;;
  delay 10 ;;
  digitalWrite trigPin LOW ;;
  store_duration (to_long echo) ;;
  t <- load duration ;;
  store_distanceCm
    (float_of_double
       (dsub (ddiv (dmul (double_of_Z t) SOUND_VELOCITY) (double_of_Z 2))
             (double_lit 25 10))) ;;
  Serial_print "Distance (cm): " ;;
  d <- load distanceCm ;;
  Serial_println d ;;
  load distanceCm.

(** ** The three seek handlers *)

Inductive ctl := Continue | Break.

(** The body of each [while (true)]; [sample] is the value the call
    [distance()] returned in [distance1 = distance()]. *)
Definition Forward_body (sample : spec_float) : io ctl :=
  store_distance1 sample ;;
  d <- load distance1 ;;
  if fge d (double_lit 985 10) && fle d (double_lit 995 10) then
    digitalWrite D2 LOW ;;
    digitalWrite D1 LOW ;;
    ret Break
  else if flt d (double_lit 985 10) && fgt d (float_of_Z 0) then
    digitalWrite D1 LOW ;;
    digitalWrite D2 HIGH ;;
    ret Continue
  else
    digitalWrite D2 LOW ;;
    digitalWrite D1 LOW ;;
    ret Continue.

Definition Backward_body (sample : spec_float) : io ctl :=
  store_distance1 sample ;;
  d <- load distance1 ;;
  if fge d (float_of_Z 71) && fle d (double_lit 715 10) then
    digitalWrite D2 LOW ;;
    digitalWrite D1 LOW ;;
    ret Break
  else if flt d (float_of_Z 71) && fgt d (float_of_Z 0) then
    digitalWrite D1 LOW ;;
    digitalWrite D2 HIGH ;;
    ret Continue
  else if fgt d (double_lit 715 10) then
    digitalWrite D1 HIGH ;;
    digitalWrite D2 LOW ;;
    ret Continue
  else
    digitalWrite D2 LOW ;;
    digitalWrite D1 LOW ;;
    ret Continue.

Definition Left_body (sample : spec_float) : io ctl :=
  store_distance1 sample ;;
  d <- load distance1 ;;
  if fge d (float_of_Z 38) && fle d (float_of_Z 39) then
    digitalWrite D2 LOW ;;
    digitalWrite D1 LOW ;;
    ret Break
  else if fgt d (float_of_Z 0) && flt d (float_of_Z 38) then
    digitalWrite D2 HIGH ;;
    digitalWrite D1 LOW ;;
    ret Continue
  else if fgt d (float_of_Z 39) then
    digitalWrite D1 HIGH ;;
    digitalWrite D2 LOW ;;
    ret Continue
  else
    digitalWrite D2 LOW ;;
    digitalWrite D1 LOW ;;
    ret Break.

(** One pass through a loop body with the sensor in place: the sample is
    what [distance()] makes of the echo. *)
Definition iteration (body : spec_float -> io ctl) (echo : Z) : io ctl :=
  sample <- distance echo ;;
  body sample.

(** The states of a seek: still in the loop, or past its [break]. *)
Inductive phase := Approaching | Arrived.

(** [while (true) { ... }] run against the inputs of its iterations, one
    per iteration: echoes when the body reads the sensor, samples when
    the samples are given.  [Approaching] with the inputs used up means
    that the loop is still running after that many iterations. *)
Fixpoint while_true {A} (body : A -> io ctl) (inputs : list A) (s : board)
  : phase * board :=
  match inputs with
  | [] => (Approaching, s)
  | x :: rest =>
      match body x s with
      | (Break, s') => (Arrived, s')
      | (Continue, s') => while_true body rest s'
      end
  end.

(** What a handler does once its loop is left. *)
Definition report (status : string) : io unit :=
  store_page2 status ;;
  p <- load page ;;
  p2 <- load page2 ;;
  server_send 200 "text/html" (p ++ p2).

Definition handler {A} (body : A -> io ctl) (status : string)
  (inputs : list A) (s : board) : phase * board :=
  match while_true body inputs s with
  | (Arrived, s') => (Arrived, snd (report status s'))
  | (Approaching, s') => (Approaching, s')
  end.

Definition Forward : list Z -> board -> phase * board :=
  handler (iteration Forward_body)
    "<center><p> Lift Status : Lift has reached the Ground Floor </p></center>".

Definition Backward : list Z -> board -> phase * board :=
  handler (iteration Backward_body)
    "<center><p> Lift Status : Lift has reached the First Floor </p></center>".

Definition Left : list Z -> board -> phase * board :=
  handler (iteration Left_body)
    "<center><p> Lift Status : Lift has reached the Second Floor </p></center>".

(** The [/Stop] route. *)
Definition Stop : io unit :=
  store_page2 "<center><p> motor 1 Status : Off</p></center>" ;;
  p <- load page ;;
  p2 <- load page2 ;;
  server_send 200 "text/html" (p ++ p2) ;;
  digitalWrite D2 LOW ;;
  digitalWrite D1 LOW ;;
  delay 200.

Definition board0 : board :=
  mkBoard LOW LOW LOW 0 (S754_zero false) (S754_zero false) "" "" [].

(** ** Targets *)

(** The three routes [/Forward], [/Backward] and [/Left] are the buttons
    "Ground Floor", "First Floor" and "Second Floor" of the page. *)
Inductive target := Ground | First | Second.

Definition body_of (t : target) : spec_float -> io ctl :=
  match t with
  | Ground => Forward_body
  | First => Backward_body
  | Second => Left_body
  end.

Definition seek (t : target) : list Z -> board -> phase * board :=
  match t with
  | Ground => Forward
  | First => Backward
  | Second => Left
  end.

(** The bounds each handler compares [distance1] with. *)
Definition lower (t : target) : spec_float :=
  match t with
  | Ground => double_lit 985 10
  | First => float_of_Z 71
  | Second => float_of_Z 38
  end.

Definition upper (t : target) : spec_float :=
  match t with
  | Ground => double_lit 995 10
  | First => double_lit 715 10
  | Second => float_of_Z 39
  end.

Definition status_message (t : target) : string :=
  match t with
  | Ground =>
      "<center><p> Lift Status : Lift has reached the Ground Floor </p></center>"
  | First =>
      "<center><p> Lift Status : Lift has reached the First Floor </p></center>"
  | Second =>
      "<center><p> Lift Status : Lift has reached the Second Floor </p></center>"
  end.

Definition zero : spec_float := float_of_Z 0.

Definition in_band (t : target) (d : spec_float) : bool :=
  fle (lower t) d && fle d (upper t).

Definition strictly_inside (t : target) (d : spec_float) : bool :=
  flt (lower t) d && flt d (upper t).

(** The motor command on the outputs: the levels of ([D1], [D2]). *)
Definition motor (s : board) : level * level := (pinD1 s, pinD2 s).

Definition stop_command : level * level := (LOW, LOW).
Definition increasing_command : level * level := (LOW, HIGH).
Definition decreasing_command : level * level := (HIGH, LOW).

Definition exclusive (c : level * level) : bool :=
  match c with
  | (HIGH, HIGH) => false
  | _ => true
  end.

(** The sample [distance()] returns for an echo. *)
Definition reading (echo : Z) : spec_float := fst (distance echo board0).

(** Whether a handler has a branch for samples above its band. *)
Definition enforces_upper (t : target) : bool :=
  match t with
  | Ground => false
  | First | Second => true
  end.

Definition ordered (x : spec_float) : bool :=
  match value x with
  | XNan => false
  | _ => true
  end.

(** The samples on which a handler certainly goes round again: outside
    the band and, for [Left], positive. *)
Definition keeps_seeking (t : target) (d : spec_float) : bool :=
  negb (in_band t d) &&
  match t with
  | Second => flt zero d
  | _ => true
  end.

(** The conversion as C8 words it: the duration times the speed-of-sound
    constant, halved, and nothing else. *)
Definition distance_by_sound_only (echo : Z) : spec_float :=
  float_of_double
    (ddiv (dmul (double_of_Z (to_long echo)) SOUND_VELOCITY) (double_of_Z 2)).

(** A number that is a zero or finite, neither an infinity nor a NaN. *)
Definition is_finite (x : spec_float) : bool :=
  match x with
  | S754_zero _ | S754_finite _ _ _ => true
  | _ => false
  end.

(** The conversion in exact arithmetic: [duration * 0.034 / 2 - 2.5]. *)
Definition distance_exact (t : Z) : Q :=
  (inject_Z t * (34 # 1000) / 2 - (5 # 2))%Q.

(** Where [x] lies between [m * P] and [(m + 1) * P]: the round bit [r]
    says at or above the middle, the sticky bit [s] says neither on [m * P]
    nor on the middle. *)
Definition located (P x : Z) (mrs : shr_record) : Prop :=
  exists rho,
    x = shr_m mrs * P + rho /\ 0 <= rho < P /\ 0 <= shr_m mrs /\
    (shr_r mrs = true <-> P <= 2 * rho) /\
    (shr_s mrs = true <-> rho <> 0 /\ 2 * rho <> P).

(** The echo durations, in microseconds, whose samples lie in the band of
    a target. *)
Definition window (t : target) : Z * Z :=
  match t with
  | Ground => (5942, 6000)
  | First => (4324, 4352)
  | Second => (2383, 2441)
  end.

Definition in_window (t : target) (d : Z) : bool :=
  (fst (window t) <=? d) && (d <=? snd (window t)).

(** The samples on which a loop body executes [break]. *)
Definition exits (t : target) (d : spec_float) : bool :=
  in_band t d ||
  match t with
  | Second => negb (flt zero d)
  | _ => false
  end.

(** The durations, as the [long] holds them, on which a loop body executes
    [break]. *)
Definition exits_on_echo (t : target) (d : Z) : bool :=
  in_window t d ||
  match t with
  | Second => d <=? 147
  | _ => false
  end.

(** ** The routes and the main loop *)






(** ** What a run leaves in the trace *)

Definition is_response (e : event) : bool :=
  match e with
  | ServerSend _ _ _ => true
  | _ => false
  end.

(** The HTTP responses sent so far, newest first. *)
Definition responses (s : board) : list event := filter is_response (trace s).

Definition is_pulse (e : event) : bool :=
  match e with
  | DigitalWrite trigPin HIGH => true
  | _ => false
  end.

(** The number of trigger pulses sent to the sensor so far. *)
Definition pulses (s : board) : nat :=
  List.length (filter is_pulse (trace s)).

(** The levels of ([D1], [D2]) after an event. *)
Definition apply_write (c : level * level) (e : event) : level * level :=
  match e with
  | DigitalWrite D1 v => (v, snd c)
  | DigitalWrite D2 v => (fst c, v)
  | _ => c
  end.

(** The levels of ([D1], [D2]) after each event of a sequence, oldest
    first, from the levels [c]. *)
Fixpoint passes (c : level * level) (es : list event)
  : list (level * level) :=
  match es with
  | [] => []
  | e :: rest => apply_write c e :: passes (apply_write c e) rest
  end.

(** The events between the board [s] and a later board [s'], oldest
    first. *)
Definition events_since (s s' : board) : list event :=
  rev (firstn (List.length (trace s') - List.length (trace s)) (trace s')).

(** The levels the motor outputs go through on the way from [s] to
    [s']. *)
Definition outputs_between (s s' : board) : list (level * level) :=
  passes (motor s) (events_since s s').

(** [s'] is reached from [s] by the events [new], newest first. *)
Definition run_of (s s' : board) (new : list event) : Prop :=
  trace s' = (new ++ trace s)%list /\
  fold_left apply_write (rev new) (motor s) = motor s'.

(** On the way from [s] to [s'] the motor outputs satisfy [P] after every
    event. *)
Definition runs_within (P : level * level -> bool) (s s' : board) : Prop :=
  exists new,
    run_of s s' new /\ forallb P (passes (motor s) (rev new)) = true.

(** ** Order facts on samples *)

Lemma xcompare_antisym a b :
  xcompare b a = option_map CompOpp (xcompare a b).
Proof.
  destruct a, b; simpl; try reflexivity.
  now rewrite Qcompare_antisym.
Qed.

Lemma xlt_trans a b c :
  xcompare a b = Some Lt -> xcompare b c = Some Lt -> xcompare a c = Some Lt.
Proof.
  destruct a, b, c; simpl; try congruence.
  intros H1 H2. injection H1 as H1. injection H2 as H2.
  apply Qlt_alt in H1. apply Qlt_alt in H2.
  f_equal. apply Qlt_alt. eapply Qlt_trans; eassumption.
Qed.

Lemma xeq_lt_trans a b c :
  xcompare a b = Some Eq -> xcompare b c = Some Lt -> xcompare a c = Some Lt.
Proof.
  destruct a, b, c; simpl; try congruence.
  intros H1 H2. injection H1 as H1. injection H2 as H2.
  apply Qeq_alt in H1. apply Qlt_alt in H2.
  f_equal. apply Qlt_alt. now rewrite H1.
Qed.

Lemma xlt_eq_trans a b c :
  xcompare a b = Some Lt -> xcompare b c = Some Eq -> xcompare a c = Some Lt.
Proof.
  destruct a, b, c; simpl; try congruence.
  intros H1 H2. injection H1 as H1. injection H2 as H2.
  apply Qlt_alt in H1. apply Qeq_alt in H2.
  f_equal. apply Qlt_alt. now rewrite <- H2.
Qed.

Lemma flt_fle a b : flt a b = true -> fle a b = true.
Proof. unfold flt, fle. now destruct (fcompare a b) as [[]|]. Qed.

Lemma flt_not_fle a b : flt a b = true -> fle b a = false.
Proof.
  unfold flt, fle, fcompare. rewrite (xcompare_antisym (value a) (value b)).
  now destruct (xcompare (value a) (value b)) as [[]|].
Qed.

Lemma fle_not_flt a b : fle a b = true -> flt b a = false.
Proof.
  unfold flt, fle, fcompare. rewrite (xcompare_antisym (value a) (value b)).
  now destruct (xcompare (value a) (value b)) as [[]|].
Qed.

Lemma flt_irrefl_sym a b : flt a b = true -> flt b a = false.
Proof. intros H. apply fle_not_flt. now apply flt_fle. Qed.

Lemma flt_trans a b c : flt a b = true -> flt b c = true -> flt a c = true.
Proof.
  unfold flt, fcompare. intros H1 H2.
  destruct (xcompare (value a) (value b)) as [[]|] eqn:E1; try discriminate.
  destruct (xcompare (value b) (value c)) as [[]|] eqn:E2; try discriminate.
  now rewrite (xlt_trans _ _ _ E1 E2).
Qed.

Lemma fle_flt_trans a b c : fle a b = true -> flt b c = true -> flt a c = true.
Proof.
  unfold fle, flt, fcompare. intros H1 H2.
  destruct (xcompare (value b) (value c)) as [[]|] eqn:E2; try discriminate.
  destruct (xcompare (value a) (value b)) as [[]|] eqn:E1; try discriminate.
  - now rewrite (xeq_lt_trans _ _ _ E1 E2).
  - now rewrite (xlt_trans _ _ _ E1 E2).
Qed.

Lemma flt_fle_trans a b c : flt a b = true -> fle b c = true -> flt a c = true.
Proof.
  unfold fle, flt, fcompare. intros H1 H2.
  destruct (xcompare (value a) (value b)) as [[]|] eqn:E1; try discriminate.
  destruct (xcompare (value b) (value c)) as [[]|] eqn:E2; try discriminate.
  - now rewrite (xlt_eq_trans _ _ _ E1 E2).
  - now rewrite (xlt_trans _ _ _ E1 E2).
Qed.

Lemma flt_ordered a b : flt a b = true -> ordered a = true /\ ordered b = true.
Proof.
  unfold flt, fcompare, ordered.
  destruct (value a), (value b); simpl; auto; discriminate.
Qed.

Lemma not_flt_fle a b :
  ordered a = true -> ordered b = true -> flt a b = false -> fle b a = true.
Proof.
  unfold flt, fle, fcompare, ordered.
  rewrite (xcompare_antisym (value a) (value b)).
  destruct (value a), (value b); simpl; try discriminate; auto.
  now destruct (q ?= q0)%Q.
Qed.

Lemma not_fle_flt a b :
  ordered a = true -> ordered b = true -> fle a b = false -> flt b a = true.
Proof.
  unfold flt, fle, fcompare, ordered.
  rewrite (xcompare_antisym (value a) (value b)).
  destruct (value a), (value b); simpl; try discriminate; auto.
  now destruct (q ?= q0)%Q.
Qed.

(** The constants of the sketch denote the numbers written in it. *)
Lemma literals_exact :
  (real_of SOUND_VELOCITY == 4899916394579100 # (2 ^ 57))%Q /\
  (real_of (double_lit 25 10) == 5 # 2)%Q /\
  (real_of (double_lit 985 10) == 197 # 2)%Q /\
  (real_of (double_lit 995 10) == 199 # 2)%Q /\
  (real_of (double_lit 715 10) == 143 # 2)%Q /\
  (real_of (float_of_Z 71) == 71)%Q /\
  (real_of (float_of_Z 38) == 38)%Q /\
  (real_of (float_of_Z 39) == 39)%Q /\
  (real_of (float_of_Z 0) == 0)%Q.
Proof. repeat split; vm_compute; reflexivity. Qed.

Lemma bounds_ordered (t : target) :
  flt zero (lower t) = true /\ flt (lower t) (upper t) = true.
Proof. destruct t; split; vm_compute; reflexivity. Qed.

(** ** Loops and handlers *)

Lemma while_true_cons {A} (body : A -> io ctl) (x : A) (rest : list A)
  (s : board) :
  while_true body (x :: rest) s =
  match fst (body x s) with
  | Break => (Arrived, snd (body x s))
  | Continue => while_true body rest (snd (body x s))
  end.
Proof. simpl. now destruct (body x s) as [[] s']. Qed.

Lemma while_true_exclusive {A} (body : A -> io ctl) :
  (forall x s, exclusive (motor (snd (body x s))) = true) ->
  forall rest x s,
    exclusive (motor (snd (while_true body (x :: rest) s))) = true.
Proof.
  intros Hbody rest. induction rest as [|y rest IH]; intros x s.
  - rewrite while_true_cons. destruct (fst (body x s)); apply Hbody.
  - rewrite while_true_cons. destruct (fst (body x s)).
    + apply IH.
    + apply Hbody.
Qed.

Lemma while_true_approaching {A} (body : A -> io ctl) (inputs : list A) :
  (forall x, In x inputs -> forall s, fst (body x s) = Continue) ->
  forall s, fst (while_true body inputs s) = Approaching.
Proof.
  induction inputs as [|x rest IH]; intros Hall s.
  - reflexivity.
  - rewrite while_true_cons, (Hall x (or_introl eq_refl)).
    apply IH. intros y Hy. apply Hall. now right.
Qed.

Lemma while_true_page {A} (body : A -> io ctl) :
  (forall x s, page (snd (body x s)) = page s) ->
  forall inputs s, page (snd (while_true body inputs s)) = page s.
Proof.
  intros Hbody inputs. induction inputs as [|x rest IH]; intros s.
  - reflexivity.
  - rewrite while_true_cons. destruct (fst (body x s)).
    + rewrite IH. apply Hbody.
    + apply Hbody.
Qed.

Lemma handler_phase {A} (body : A -> io ctl) (status : string)
  (inputs : list A) (s : board) :
  fst (handler body status inputs s) = fst (while_true body inputs s).
Proof.
  unfold handler. now destruct (while_true body inputs s) as [[] s'].
Qed.

Lemma handler_motor {A} (body : A -> io ctl) (status : string)
  (inputs : list A) (s : board) :
  motor (snd (handler body status inputs s)) =
  motor (snd (while_true body inputs s)).
Proof.
  unfold handler. now destruct (while_true body inputs s) as [[] s'].
Qed.

Lemma handler_page2 {A} (body : A -> io ctl) (status : string)
  (inputs : list A) (s : board) :
  fst (while_true body inputs s) = Arrived ->
  page2 (snd (handler body status inputs s)) = status.
Proof.
  unfold handler. destruct (while_true body inputs s) as [[] s'].
  - discriminate.
  - reflexivity.
Qed.

Lemma distance_frame (echo : Z) (s : board) :
  motor (snd (distance echo s)) = motor s /\
  page (snd (distance echo s)) = page s /\
  page2 (snd (distance echo s)) = page2 s /\
  distance1 (snd (distance echo s)) = distance1 s.
Proof. repeat split. Qed.

Lemma distance_returns (echo : Z) (s : board) :
  fst (distance echo s) = reading echo.
Proof. reflexivity. Qed.

Lemma iteration_eq (body : spec_float -> io ctl) (echo : Z) (s : board) :
  iteration body echo s = body (reading echo) (snd (distance echo s)).
Proof. reflexivity. Qed.

Lemma seek_eq (t : target) :
  seek t = handler (iteration (body_of t)) (status_message t).
Proof. now destruct t. Qed.

(** ** One iteration of a seek loop *)

Ltac run_body :=
  cbv [body_of Forward_body Backward_body Left_body bind load ret
       store_distance1 distance1 fge fgt].

Ltac finish_body :=
  cbv [bind ret digitalWrite drive emit motor pinD1 pinD2 fst snd
       stop_command increasing_command decreasing_command];
  repeat split; reflexivity.

Lemma body_in_band (t : target) (d : spec_float) (s : board) :
  in_band t d = true ->
  fst (body_of t d s) = Break /\ motor (snd (body_of t d s)) = stop_command.
Proof.
  unfold in_band. intros H.
  destruct t; run_body; cbv [lower upper] in H; rewrite H; finish_body.
Qed.

Lemma strictly_inside_in_band (t : target) (d : spec_float) :
  strictly_inside t d = true -> in_band t d = true.
Proof.
  unfold strictly_inside, in_band. intros H.
  apply andb_prop in H as [H1 H2].
  now rewrite (flt_fle _ _ H1), (flt_fle _ _ H2).
Qed.

(** C1: for every target and every sample strictly inside the target's
    tolerance band, the iteration executes [break] with both motor
    direction outputs LOW (the stop command); a seek loop that gets the
    sample leaves [Approaching] for [Arrived] on it, whatever would
    follow; and the handler that reads the sample from the sensor
    returns with the motor stopped and the status of the target. *)
Theorem seek_inside_band_arrives (t : target) (d : spec_float) :
  strictly_inside t d = true ->
  (forall s, fst (body_of t d s) = Break /\
             motor (snd (body_of t d s)) = stop_command) /\
  (forall rest s,
      fst (while_true (body_of t) (d :: rest) s) = Arrived /\
      motor (snd (while_true (body_of t) (d :: rest) s)) = stop_command) /\
  (forall echo rest s,
      reading echo = d ->
      fst (seek t (echo :: rest) s) = Arrived /\
      motor (snd (seek t (echo :: rest) s)) = stop_command /\
      page2 (snd (seek t (echo :: rest) s)) = status_message t).
Proof.
  intros H. apply strictly_inside_in_band in H.
  split; [|split]; intros.
  - now apply body_in_band.
  - rewrite while_true_cons.
    destruct (body_in_band t d s H) as [-> Hm]. now split.
  - subst d. rewrite seek_eq.
    assert (Hloop : while_true (iteration (body_of t)) (echo :: rest) s =
                    (Arrived, snd (iteration (body_of t) echo s))).
    { rewrite while_true_cons, iteration_eq.
      now destruct (body_in_band t _ (snd (distance echo s)) H) as [-> _]. }
    rewrite handler_phase, handler_motor, Hloop.
    split; [reflexivity|]. split.
    + cbv [snd]. rewrite iteration_eq. now apply body_in_band.
    + apply handler_page2. now rewrite Hloop.
Qed.

Lemma seek_inside_band_arrives_witness :
  (strictly_inside Ground (reading 5970) = true /\
   fst (seek Ground [5970] board0) = Arrived) /\
  (strictly_inside First (reading 4338) = true /\
   fst (seek First [4338] board0) = Arrived) /\
  (strictly_inside Second (reading 2412) = true /\
   fst (seek Second [2412] board0) = Arrived).
Proof.
  split; [|split].
  - assert (H : strictly_inside Ground (reading 5970) = true)
      by (vm_compute; reflexivity).
    split; [exact H|].
    apply (seek_inside_band_arrives Ground (reading 5970) H). reflexivity.
  - assert (H : strictly_inside First (reading 4338) = true)
      by (vm_compute; reflexivity).
    split; [exact H|].
    apply (seek_inside_band_arrives First (reading 4338) H). reflexivity.
  - assert (H : strictly_inside Second (reading 2412) = true)
      by (vm_compute; reflexivity).
    split; [exact H|].
    apply (seek_inside_band_arrives Second (reading 2412) H). reflexivity.
Defined.

(** A sample at or below zero is below every band and above none. *)
Lemma non_positive_below (t : target) (d : spec_float) :
  fle d zero = true ->
  flt zero d = false /\ fle (lower t) d = false /\ flt (upper t) d = false.
Proof.
  intros H. destruct (bounds_ordered t) as [H0 H1].
  assert (Hlo : flt d (lower t) = true) by (eapply fle_flt_trans; eassumption).
  repeat split.
  - now apply fle_not_flt.
  - now apply flt_not_fle.
  - apply flt_irrefl_sym. eapply flt_trans; eassumption.
Qed.

(** What each handler does with a sample at or below zero: all three write
    the stop command, [Forward] and [Backward] stay in the loop, [Left]
    executes the [break] of its last branch. *)
Lemma body_non_positive (t : target) (d : spec_float) (s : board) :
  fle d zero = true ->
  motor (snd (body_of t d s)) = stop_command /\
  fst (body_of t d s) = match t with Second => Break | _ => Continue end.
Proof.
  intros H. destruct (non_positive_below t d H) as (H0 & Hlo & Hhi).
  cbv [zero] in H0.
  destruct t; run_body; cbv [lower upper] in Hlo, Hhi;
    rewrite Hlo, H0, ?Hhi, ?andb_false_r; finish_body.
Qed.

(** C6: for every target and every sample that is positive and strictly
    below the lower bound of the target's band, the iteration writes the
    increasing-distance command ([D2] HIGH, [D1] LOW) and stays in the
    loop. *)
Theorem below_band_increasing (t : target) (d : spec_float) (s : board) :
  flt zero d = true ->
  flt d (lower t) = true ->
  fst (body_of t d s) = Continue /\
  motor (snd (body_of t d s)) = increasing_command.
Proof.
  intros Hpos Hlo. pose proof (flt_not_fle _ _ Hlo) as Hout.
  cbv [zero] in Hpos.
  destruct t; run_body; cbv [lower] in Hlo, Hout;
    rewrite Hout, Hlo, Hpos; finish_body.
Qed.

Lemma below_band_increasing_witness :
  flt zero (float_of_Z 50) = true /\
  flt (float_of_Z 50) (lower First) = true /\
  fst (body_of First (float_of_Z 50) board0) = Continue /\
  motor (snd (body_of First (float_of_Z 50) board0)) = increasing_command.
Proof.
  assert (H0 : flt zero (float_of_Z 50) = true) by (vm_compute; reflexivity).
  assert (H1 : flt (float_of_Z 50) (lower First) = true)
    by (vm_compute; reflexivity).
  split; [exact H0|]. split; [exact H1|].
  exact (below_band_increasing First (float_of_Z 50) board0 H0 H1).
Defined.

Lemma above_band_guards (t : target) (d : spec_float) :
  flt (upper t) d = true ->
  fle d (upper t) = false /\ flt d (lower t) = false.
Proof.
  intros H. destruct (bounds_ordered t) as [_ H1]. split.
  - now apply flt_not_fle.
  - apply flt_irrefl_sym. eapply flt_trans; eassumption.
Qed.

(** What each handler does with a sample strictly above its band. *)
Lemma body_above_band (t : target) (d : spec_float) (s : board) :
  flt (upper t) d = true ->
  fst (body_of t d s) = Continue /\
  motor (snd (body_of t d s)) =
    if enforces_upper t then decreasing_command else stop_command.
Proof.
  intros H. destruct (above_band_guards t d H) as [Hhi Hlo].
  destruct t; run_body; cbv [lower upper] in H, Hhi, Hlo;
    rewrite Hhi, Hlo, ?H, ?andb_false_r; cbv [andb enforces_upper];
    finish_body.
Qed.

(** [Forward] never drives [D1] HIGH. *)
Lemma Forward_never_decreasing (d : spec_float) (s : board) :
  pinD1 (snd (Forward_body d s)) = LOW.
Proof.
  run_body.
  repeat match goal with
         | |- context [if ?b then _ else _] => destruct b
         end; reflexivity.
Qed.

(** C5, as the code has it: [Forward], the handler of the [Ground] floor,
    answers every sample strictly above its band with the stop command
    alone and stays in the loop, and it never drives [D1] HIGH at any
    sample, so it never reverses; below the band it does not brake. *)
Theorem Ground_brakes_above_band (d : spec_float) (s : board) :
  (flt (upper Ground) d = true ->
   fst (Forward_body d s) = Continue /\
   motor (snd (Forward_body d s)) = stop_command) /\
  pinD1 (snd (Forward_body d s)) = LOW.
Proof.
  split.
  - intros H. exact (body_above_band Ground d s H).
  - apply Forward_never_decreasing.
Qed.

Lemma Ground_brakes_above_band_witness :
  flt (upper Ground) (float_of_Z 120) = true /\
  fst (Forward_body (float_of_Z 120) board0) = Continue /\
  motor (snd (Forward_body (float_of_Z 120) board0)) = stop_command.
Proof.
  assert (H : flt (upper Ground) (float_of_Z 120) = true)
    by (vm_compute; reflexivity).
  split; [exact H|].
  exact (proj1 (Ground_brakes_above_band (float_of_Z 120) board0) H).
Defined.

(** C5 as stated fails below the band: at the sample 50 [Forward] writes
    the increasing-distance command, not the stop command. *)
Lemma Ground_drives_below_band :
  flt (float_of_Z 50) (lower Ground) = true /\
  motor (snd (Forward_body (float_of_Z 50) board0)) = increasing_command /\
  motor (snd (Forward_body (float_of_Z 50) board0)) <> stop_command.
Proof. repeat split; try (vm_compute; reflexivity). vm_compute. congruence. Qed.

(** ** The invariant of the motor outputs *)

Lemma body_exclusive (t : target) (d : spec_float) (s : board) :
  exclusive (motor (snd (body_of t d s))) = true.
Proof.
  destruct t; run_body;
    repeat match goal with
           | |- context [if ?b then _ else _] => destruct b
           end; reflexivity.
Qed.

(** C7: after every iteration of every handler, after any number of
    iterations of a seek and after [/Stop], from any prior state of the
    outputs whatsoever, at most one of [D1] and [D2] is HIGH. *)
Theorem motor_outputs_exclusive (t : target) (s : board) :
  (forall d, exclusive (motor (snd (body_of t d s))) = true) /\
  (forall echo, exclusive (motor (snd (iteration (body_of t) echo s))) = true) /\
  (forall echo rest, exclusive (motor (snd (seek t (echo :: rest) s))) = true) /\
  exclusive (motor (snd (Stop s))) = true.
Proof.
  repeat split; intros.
  - apply body_exclusive.
  - rewrite iteration_eq. apply body_exclusive.
  - rewrite seek_eq, handler_motor. apply while_true_exclusive.
    intros x s0. rewrite iteration_eq. apply body_exclusive.
Qed.

(** C9: whatever the board holds, the [/Stop] route leaves both motor
    direction outputs LOW; it reports the off state and then writes [D2]
    and [D1] LOW and waits, and it neither reads the sensor nor looks at
    any sample. *)
Theorem Stop_unconditional (s : board) :
  motor (snd (Stop s)) = stop_command /\
  page2 (snd (Stop s)) = "<center><p> motor 1 Status : Off</p></center>"%string /\
  trace (snd (Stop s)) =
    Delay 200 :: DigitalWrite D1 LOW :: DigitalWrite D2 LOW ::
    ServerSend 200 "text/html"
      (page s ++ "<center><p> motor 1 Status : Off</p></center>") :: trace s /\
  pinTrig (snd (Stop s)) = pinTrig s /\
  distance1 (snd (Stop s)) = distance1 s.
Proof. repeat split. Qed.

(** ** Samples at or below zero *)

Lemma echo_0_reading :
  fcompare (reading 0) (double_lit (-25) 10) = Some Eq /\
  fle (reading 0) zero = true /\
  forall t, in_band t (reading 0) = false.
Proof.
  split; [vm_compute; reflexivity|].
  split; [vm_compute; reflexivity|].
  intros t. destruct t; vm_compute; reflexivity.
Qed.

Lemma Left_exits_on_echo_0 (rest : list Z) (s : board) :
  while_true (iteration Left_body) (0 :: rest) s =
  (Arrived, snd (iteration Left_body 0 s)).
Proof.
  rewrite while_true_cons, iteration_eq.
  destruct echo_0_reading as (_ & H & _).
  destruct (body_non_positive Second (reading 0) (snd (distance 0 s)) H)
    as [_ Hb].
  cbv [body_of] in Hb. rewrite Hb. reflexivity.
Qed.

(** C2 at the failing input: for the [Second] floor the sample 0, and the
    sample -2.5 that [distance()] returns when no echo was seen, make the
    iteration write the stop command and execute [break]: the loop is
    left and the seek counts as arrived.  [Forward] and [Backward] stay
    in their loops on the same samples. *)
Theorem Left_breaks_on_non_positive (s : board) :
  fle zero zero = true /\
  fst (Left_body zero s) = Break /\
  motor (snd (Left_body zero s)) = stop_command /\
  fle (reading 0) zero = true /\
  fst (iteration Left_body 0 s) = Break /\
  fst (Forward_body zero s) = Continue /\
  fst (Backward_body zero s) = Continue.
Proof.
  assert (Hz : fle zero zero = true) by (vm_compute; reflexivity).
  destruct echo_0_reading as (_ & H0 & _).
  split; [exact Hz|].
  split; [apply (body_non_positive Second zero s Hz)|].
  split; [apply (body_non_positive Second zero s Hz)|].
  split; [exact H0|].
  split.
  { rewrite iteration_eq.
    apply (body_non_positive Second (reading 0) (snd (distance 0 s)) H0). }
  split.
  - apply (body_non_positive Ground zero s Hz).
  - apply (body_non_positive First zero s Hz).
Qed.

(** ** Seeks that do not end *)

Lemma body_keeps_seeking (t : target) (d : spec_float) (s : board) :
  keeps_seeking t d = true -> fst (body_of t d s) = Continue.
Proof.
  unfold keeps_seeking, in_band. intros H.
  apply andb_prop in H as [Hband Hpos]. apply negb_true_iff in Hband.
  destruct t; run_body; cbv [lower upper] in Hband; rewrite Hband;
    cbv beta iota.
  - destruct (flt d _ && _); reflexivity.
  - destruct (flt d _ && _); [|destruct (flt _ d)]; reflexivity.
  - cbv [zero] in Hpos. rewrite Hpos.
    destruct (flt d (float_of_Z 38)) eqn:Hlo; [reflexivity|].
    destruct (flt_ordered _ _ Hpos) as [_ Hd].
    assert (H38 : ordered (float_of_Z 38) = true) by (vm_compute; reflexivity).
    assert (H39 : ordered (float_of_Z 39) = true) by (vm_compute; reflexivity).
    rewrite (not_flt_fle _ _ Hd H38 Hlo) in Hband. cbv [andb] in Hband.
    rewrite (not_fle_flt _ _ Hd H39 Hband). reflexivity.
Qed.

(** Whether a body leaves the loop depends on the sample alone, so a
    handler on the echoes of the sensor is in the phase of its loop on the
    samples [distance()] makes of them. *)
Lemma body_ctl_by_sample (t : target) (d : spec_float) (s s' : board) :
  fst (body_of t d s) = fst (body_of t d s').
Proof.
  destruct t; run_body;
    repeat match goal with
           | |- context [if ?b then _ else _] => destruct b
           end; reflexivity.
Qed.

Lemma seek_phase_by_samples (t : target) (echoes : list Z) (s : board) :
  fst (seek t echoes s) =
  fst (while_true (body_of t) (map reading echoes) s).
Proof.
  rewrite seek_eq, handler_phase.
  assert (H : forall s1 s2,
             fst (while_true (iteration (body_of t)) echoes s1) =
             fst (while_true (body_of t) (map reading echoes) s2));
    [|apply H].
  induction echoes as [|echo rest IH]; intros s1 s2.
  - reflexivity.
  - cbn [map]. rewrite !while_true_cons, iteration_eq.
    rewrite (body_ctl_by_sample t (reading echo) (snd (distance echo s1)) s2).
    destruct (fst (body_of t (reading echo) s2)); [apply IH|reflexivity].
Qed.

(** No timeout and no iteration cap: as long as every sample keeps the
    handler seeking, the seek is still [Approaching], however many echoes
    have been consumed. *)
Lemma seek_still_approaching (t : target) (echoes : list Z) (s : board) :
  forallb (fun echo => keeps_seeking t (reading echo)) echoes = true ->
  fst (seek t echoes s) = Approaching.
Proof.
  intros H. rewrite seek_eq, handler_phase.
  apply while_true_approaching. intros echo Hin s0.
  rewrite iteration_eq. apply body_keeps_seeking.
  rewrite forallb_forall in H. now apply H.
Qed.

(** C3 at the failing input: the echo sequence that starts with a missing
    echo (sample -2.5, outside the band of [Second]) ends the seek of
    [Second] after one iteration, while the seeks of [Ground] and [First]
    are still [Approaching] after it. *)
Theorem Second_seek_ends_outside_band (rest : list Z) (s : board) :
  in_band Second (reading 0) = false /\
  fst (seek Second (0 :: rest) s) = Arrived /\
  fst (seek Ground [0] s) = Approaching /\
  fst (seek First [0] s) = Approaching.
Proof.
  destruct echo_0_reading as (_ & _ & Hband).
  split; [apply Hband|].
  split.
  { rewrite seek_eq, handler_phase. cbv [body_of].
    rewrite Left_exits_on_echo_0. reflexivity. }
  split.
  - apply seek_still_approaching. vm_compute. reflexivity.
  - apply seek_still_approaching. vm_compute. reflexivity.
Qed.

(** ** The status a seek reports *)

Lemma body_page (t : target) (d : spec_float) (s : board) :
  page (snd (body_of t d s)) = page s.
Proof.
  destruct t; run_body;
    repeat match goal with
           | |- context [if ?b then _ else _] => destruct b
           end; reflexivity.
Qed.

Lemma handler_arrived {A} (body : A -> io ctl) (status : string)
  (inputs : list A) (s : board) :
  (forall x s, page (snd (body x s)) = page s) ->
  fst (handler body status inputs s) = Arrived ->
  page2 (snd (handler body status inputs s)) = status /\
  hd_error (trace (snd (handler body status inputs s))) =
    Some (ServerSend 200 "text/html" (page s ++ status)).
Proof.
  intros Hbody. unfold handler.
  pose proof (while_true_page body Hbody inputs s) as Hpage.
  destruct (while_true body inputs s) as [[] s']; [discriminate|].
  intros _. simpl in Hpage. split; [reflexivity|].
  cbv [report bind store_page2 load server_send emit snd trace page page2
       hd_error].
  cbv [page] in Hpage. now rewrite Hpage.
Qed.

Lemma seek_arrived (t : target) (echoes : list Z) (s : board) :
  fst (seek t echoes s) = Arrived ->
  page2 (snd (seek t echoes s)) = status_message t /\
  hd_error (trace (snd (seek t echoes s))) =
    Some (ServerSend 200 "text/html" (page s ++ status_message t)).
Proof.
  rewrite seek_eq.
  apply (handler_arrived (iteration (body_of t)) (status_message t) echoes s).
  intros echo s0. rewrite iteration_eq, body_page.
  exact (proj1 (proj2 (distance_frame echo s0))).
Qed.

(** C10: the status a seek reports when it returns is fixed by the
    target: on any two echo sequences, from any two boards, on which the
    seek of a target returns, [page2] holds the same message and the
    response sent last is the page followed by that message.  In
    particular the seek of [Second] that leaves its loop on the sample of
    a missing echo, which is at or below zero and outside the band,
    reports that the lift has reached the Second Floor. *)
Theorem status_fixed_by_target (t : target) (echoes1 echoes2 : list Z)
  (s1 s2 : board) :
  fst (seek t echoes1 s1) = Arrived ->
  fst (seek t echoes2 s2) = Arrived ->
  (page2 (snd (seek t echoes1 s1)) = status_message t /\
   page2 (snd (seek t echoes2 s2)) = status_message t /\
   hd_error (trace (snd (seek t echoes1 s1))) =
     Some (ServerSend 200 "text/html" (page s1 ++ status_message t)) /\
   hd_error (trace (snd (seek t echoes2 s2))) =
     Some (ServerSend 200 "text/html" (page s2 ++ status_message t))) /\
  (fle (reading 0) zero = true /\
   in_band Second (reading 0) = false /\
   fst (Left [0] s1) = Arrived /\
   page2 (snd (Left [0] s1)) =
     "<center><p> Lift Status : Lift has reached the Second Floor </p></center>"%string).
Proof.
  intros H1 H2.
  destruct (seek_arrived t echoes1 s1 H1) as [Hp1 Hr1].
  destruct (seek_arrived t echoes2 s2 H2) as [Hp2 Hr2].
  split; [now repeat split|].
  destruct echo_0_reading as (_ & Hle & Hband).
  split; [exact Hle|]. split; [apply Hband|].
  assert (Harr : fst (seek Second [0] s1) = Arrived).
  { rewrite seek_eq, handler_phase. cbv [body_of].
    rewrite Left_exits_on_echo_0. reflexivity. }
  split; [exact Harr|].
  apply (seek_arrived Second [0] s1 Harr).
Qed.

Lemma status_fixed_by_target_witness :
  fst (seek Second [5970; 1000; 2412] board0) = Arrived /\
  fst (seek Second [0] board0) = Arrived /\
  page2 (snd (seek Second [5970; 1000; 2412] board0)) =
  page2 (snd (seek Second [0] board0)).
Proof.
  assert (H1 : fst (seek Second [5970; 1000; 2412] board0) = Arrived)
    by (vm_compute; reflexivity).
  assert (H2 : fst (seek Second [0] board0) = Arrived)
    by (vm_compute; reflexivity).
  split; [exact H1|]. split; [exact H2|].
  destruct (status_fixed_by_target Second [5970; 1000; 2412] [0]
              board0 board0 H1 H2) as [(Hp1 & Hp2 & _) _].
  now rewrite Hp1, Hp2.
Defined.

(** ** Rounding to nearest, ties to even *)

(** A positive number of [d] binary digits lies in [2 ^ (d - 1), 2 ^ d). *)
Lemma digits2_pos_bounds (p : positive) :
  2 ^ (Zpos (digits2_pos p) - 1) <= Zpos p < 2 ^ Zpos (digits2_pos p).
Proof.
  induction p as [p IH|p IH|]; simpl digits2_pos.
  - rewrite Pos2Z.inj_succ.
    replace (Z.succ (Zpos (digits2_pos p)) - 1) with (Z.succ (Zpos (digits2_pos p) - 1)) by lia.
    rewrite !Z.pow_succ_r by lia. lia.
  - rewrite Pos2Z.inj_succ.
    replace (Z.succ (Zpos (digits2_pos p)) - 1) with (Z.succ (Zpos (digits2_pos p) - 1)) by lia.
    rewrite !Z.pow_succ_r by lia. lia.
  - simpl. lia.
Qed.

Lemma Zdigits2_bounds (m : Z) :
  0 < m -> 2 ^ (Zdigits2 m - 1) <= m < 2 ^ Zdigits2 m.
Proof. destruct m; try lia. intros _. apply digits2_pos_bounds. Qed.

Lemma Zdigits2_le (m k : Z) : 0 <= k -> 0 <= m < 2 ^ k -> Zdigits2 m <= k.
Proof.
  intros Hk [H0 Hm]. destruct (Z.eq_dec m 0) as [->|Hne]; [simpl; lia|].
  destruct (Zdigits2_bounds m ltac:(lia)) as [Hlo _].
  destruct (Z.le_gt_cases (Zdigits2 m) k) as [|Hgt]; [assumption|].
  assert (2 ^ k <= 2 ^ (Zdigits2 m - 1)) by (apply Z.pow_le_mono_r; lia).
  lia.
Qed.

Lemma located_start (x : Z) :
  0 <= x -> located 1 x (Build_shr_record x false false).
Proof.
  intros Hx. exists 0. simpl. repeat split; try lia; try discriminate.
Qed.

(** One right shift doubles the unit and keeps track of where [x] lies. *)
Lemma located_shr_1 (P x : Z) (mrs : shr_record) :
  located P x mrs -> located (2 * P) x (shr_1 mrs).
Proof.
  intros (rho & Hx & Hrho & Hm & Hr & Hs).
  destruct mrs as [m r s]. cbn [shr_m shr_r shr_s] in *.
  assert (Hor : (r || s)%bool = true <-> rho <> 0).
  { rewrite orb_true_iff, Hr, Hs. lia. }
  unfold located.
  destruct m as [|[p|p|]|p]; try lia; cbn [shr_1 shr_m shr_r shr_s].
  - exists rho. intuition (try discriminate; lia).
  - exists (P + rho). rewrite Pos2Z.inj_xI in Hx.
    intuition (try discriminate; lia).
  - exists rho. rewrite Pos2Z.inj_xO in Hx.
    intuition (try discriminate; lia).
  - exists (P + rho). intuition (try discriminate; lia).
Qed.

Lemma pow2_xO (n : positive) : 2 ^ Zpos n~0 = 2 ^ Zpos n * 2 ^ Zpos n.
Proof. rewrite <- Z.pow_add_r by lia. f_equal. lia. Qed.

Lemma pow2_xI (n : positive) : 2 ^ Zpos n~1 = 2 ^ Zpos n * 2 ^ Zpos n * 2.
Proof.
  rewrite Pos2Z.inj_xI.
  replace (2 * Zpos n + 1) with (Z.succ (Zpos n + Zpos n)) by lia.
  rewrite Z.pow_succ_r, Z.pow_add_r by lia. ring.
Qed.

(** So do [n] right shifts: the mantissa is [x / 2 ^ n], the round and
    sticky bits say what was shifted out. *)
Lemma located_iter (n : positive) :
  forall P x mrs,
    located P x mrs -> located (2 ^ Zpos n * P) x (iter_pos shr_1 n mrs).
Proof.
  induction n as [n IH|n IH|]; intros P x mrs H; simpl iter_pos.
  - apply located_shr_1 in H. apply IH in H. apply IH in H.
    rewrite pow2_xI.
    replace (2 ^ Zpos n * 2 ^ Zpos n * 2 * P)
      with (2 ^ Zpos n * (2 ^ Zpos n * (2 * P))) by ring.
    exact H.
  - apply IH in H. apply IH in H.
    rewrite pow2_xO, <- Z.mul_assoc. exact H.
  - apply located_shr_1 in H. now rewrite Z.pow_1_r.
Qed.

(** Rounding to nearest, ties to even, is off by at most half of [P]. *)
Lemma round_nearest_even_located (P x : Z) (mrs : shr_record) :
  located P x mrs ->
  let m := round_nearest_even (shr_m mrs) (loc_of_shr_record mrs) in
  2 * Z.abs (m * P - x) <= P /\ shr_m mrs <= m <= shr_m mrs + 1.
Proof.
  intros (rho & Hx & Hrho & Hm & Hr & Hs).
  destruct mrs as [m r s]. cbn [shr_m shr_r shr_s] in *.
  destruct r, s; cbn [loc_of_shr_record round_nearest_even].
  - assert (P <= 2 * rho) by tauto. nia.
  - assert (P <= 2 * rho) by tauto.
    assert (~ (rho <> 0 /\ 2 * rho <> P)) by (intros K; apply Hs in K; discriminate).
    destruct (Z.even m); nia.
  - assert (~ P <= 2 * rho) by (intros K; apply Hr in K; discriminate). nia.
  - assert (~ P <= 2 * rho) by (intros K; apply Hr in K; discriminate).
    assert (~ (rho <> 0 /\ 2 * rho <> P)) by (intros K; apply Hs in K; discriminate).
    nia.
Qed.

Lemma Zdigits2_pow2 (k : Z) : 0 <= k -> Zdigits2 (2 ^ k) = k + 1.
Proof.
  intros Hk. assert (H0 : 0 < 2 ^ k) by (apply Z.pow_pos_nonneg; lia).
  destruct (Zdigits2_bounds _ H0) as [Hlo Hhi].
  assert (Hd : 0 <= Zdigits2 (2 ^ k)) by (destruct (2 ^ k); simpl; lia).
  apply Z.pow_lt_mono_r_iff in Hhi; try lia.
  destruct (Z.le_gt_cases (Zdigits2 (2 ^ k) - 1) k) as [|Hgt]; [lia|].
  apply Z.pow_le_mono_r_iff in Hlo; lia.
Qed.

Section Rounding.

Variables prec emax : Z.
Hypothesis Hprec : 0 < prec.

Let emin := SpecFloat.emin prec emax.
Let fexp := SpecFloat.fexp prec emax.

Lemma fexp_spec (e : Z) : fexp e = Z.max (e - prec) emin.
Proof. reflexivity. Qed.

(** [shr_fexp] shifts an exact mantissa right until its exponent is the
    one of the format, if it is not there already. *)
Lemma shr_fexp_Exact_spec (m e : Z) :
  0 <= m ->
  let n := fexp (Zdigits2 m + e) - e in
  exists mrs,
    shr_fexp prec emax m e loc_Exact = (mrs, e + Z.max n 0) /\
    located (2 ^ Z.max n 0) m mrs /\
    (n <= 0 -> mrs = Build_shr_record m false false).
Proof.
  intros Hm n. unfold shr_fexp, shr. fold fexp. fold n.
  cbn [shr_record_of_loc].
  destruct n as [|p|p] eqn:Hn.
  - exists (Build_shr_record m false false).
    split; [f_equal; lia|]. split; [|reflexivity].
    now apply located_start.
  - exists (iter_pos shr_1 p (Build_shr_record m false false)).
    split; [f_equal; lia|]. split; [|lia].
    rewrite Z.max_l by lia.
    rewrite <- (Z.mul_1_r (2 ^ Zpos p)).
    apply located_iter. now apply located_start.
  - exists (Build_shr_record m false false).
    split; [f_equal; lia|]. split; [|reflexivity].
    rewrite Z.max_r by lia. now apply located_start.
Qed.

(** What [binary_round_aux] returns on an exact positive mantissa: a
    mantissa of at most [prec] bits at the exponent [E] of the format, or
    at [E + 1] when the rounding carried, within half a unit of [2 ^ E] of
    the argument, and exactly the argument when nothing was shifted out. *)
Lemma binary_round_aux_spec (s : bool) (mx : positive) (ex : Z) :
  let E := Z.max (fexp (Zpos (digits2_pos mx) + ex)) ex in
  exists m e,
    binary_round_aux prec emax s (Zpos mx) ex loc_Exact =
      match m with
      | Z0 => S754_zero s
      | Zpos p =>
          if e <=? emax - prec then S754_finite s p e else S754_infinity s
      | Zneg _ => S754_nan
      end /\
    0 <= m < 2 ^ prec /\
    E <= e <= E + 1 /\
    2 * Z.abs (m * 2 ^ (e - ex) - Zpos mx) <= 2 ^ (E - ex).
Proof.
  intros E. unfold binary_round_aux.
  destruct (shr_fexp_Exact_spec (Zpos mx) ex ltac:(lia))
    as (mrs1 & -> & Hloc1 & _).
  change (Zdigits2 (Zpos mx)) with (Zpos (digits2_pos mx)) in *.
  set (d := Zpos (digits2_pos mx)) in *.
  assert (HE : ex + Z.max (fexp (d + ex) - ex) 0 = E) by (unfold E; lia).
  assert (HP : Z.max (fexp (d + ex) - ex) 0 = E - ex) by lia.
  rewrite HE. rewrite HP in Hloc1. clear HE HP.
  assert (HEex : 0 <= E - ex) by (unfold E; lia).
  assert (HEmin : emin <= E) by (unfold E; rewrite fexp_spec; lia).
  assert (HEd : d + ex - prec <= E) by (unfold E; rewrite fexp_spec; lia).
  set (P := 2 ^ (E - ex)) in *.
  assert (HPpos : 0 < P) by (apply Z.pow_pos_nonneg; lia).
  destruct (round_nearest_even_located _ _ _ Hloc1) as (Herr & Hm1).
  set (m1 := round_nearest_even (shr_m mrs1) (loc_of_shr_record mrs1)) in *.
  destruct Hloc1 as (rho & Hx & Hrho & Hm0 & _).
  assert (Hm1le : m1 <= 2 ^ prec).
  { assert (Hlt : shr_m mrs1 < 2 ^ prec); [|lia].
    destruct (digits2_pos_bounds mx) as [_ Hhi]. fold d in Hhi.
    assert (Hpow : 2 ^ d <= 2 ^ prec * P).
    { unfold P. rewrite <- Z.pow_add_r by lia.
      apply Z.pow_le_mono_r; lia. }
    nia. }
  destruct (shr_fexp_Exact_spec m1 E ltac:(lia)) as (mrs2 & -> & Hloc2 & Hex2).
  destruct (Z.eq_dec m1 (2 ^ prec)) as [Hcarry|Hnc].
  - (* the rounding carried into the next binade *)
    rewrite Hcarry, Zdigits2_pow2 in * by lia.
    assert (Hn2 : fexp (prec + 1 + E) - E = 1) by (rewrite fexp_spec; lia).
    rewrite Hn2 in *. change (Z.max 1 0) with 1 in *.
    change (2 ^ 1) with 2 in Hloc2.
    destruct Hloc2 as (rho2 & Hx2 & Hrho2 & Hm2 & _).
    assert (Hhalf : 2 ^ prec = 2 * 2 ^ (prec - 1)).
    { rewrite <- Z.pow_succ_r by lia. f_equal. lia. }
    assert (Hhpos : 0 < 2 ^ (prec - 1)) by (apply Z.pow_pos_nonneg; lia).
    assert (Hm2eq : shr_m mrs2 = 2 ^ (prec - 1)) by lia.
    exists (shr_m mrs2), (E + 1).
    split; [reflexivity|]. split; [lia|]. split; [lia|].
    replace (E + 1 - ex) with (Z.succ (E - ex)) by lia.
    rewrite Z.pow_succ_r by lia. fold P.
    rewrite Hm2eq.
    replace (2 ^ (prec - 1) * (2 * P)) with (2 ^ prec * P) by (rewrite Hhalf; ring).
    exact Herr.
  - assert (Hn2 : fexp (Zdigits2 m1 + E) - E <= 0).
    { assert (Zdigits2 m1 <= prec) by (apply Zdigits2_le; lia).
      rewrite fexp_spec. lia. }
    rewrite (Hex2 Hn2). cbn [shr_m].
    rewrite Z.max_r by lia. rewrite Z.add_0_r.
    exists m1, E.
    split; [reflexivity|]. split; [lia|]. split; [lia|].
    fold P. exact Herr.
Qed.

End Rounding.

(** ** Values of floating-point numbers as rationals *)

Lemma pow2_pos (e : Z) : (0 < 2 ^ e)%Q.
Proof. apply Qpower_0_lt. reflexivity. Qed.

Lemma pow2_add (a b : Z) : (2 ^ (a + b) == 2 ^ a * 2 ^ b)%Q.
Proof. apply Qpower_plus. discriminate. Qed.

Lemma pow2_inject (n : Z) : (0 <= n)%Z -> (inject_Z (2 ^ n) == 2 ^ n)%Q.
Proof. intros H. now rewrite Zpower_Qpower. Qed.

Lemma pow2_le (a b : Z) : (a <= b)%Z -> (2 ^ a <= 2 ^ b)%Q.
Proof. intros H. apply Qpower_le_compat_l; [exact H|discriminate]. Qed.

Lemma pow2_lt_inv (a b : Z) : (2 ^ a < 2 ^ b)%Q -> (a < b)%Z.
Proof. intros H. apply (Qpower_lt_compat_l_inv 2); [exact H|reflexivity]. Qed.

Lemma pow2_succ (a : Z) : (2 ^ (a + 1) == 2 * 2 ^ a)%Q.
Proof. rewrite pow2_add. change (2 ^ 1)%Q with 2%Q. ring. Qed.

Lemma finite_value_pow2 (s : bool) (m : positive) (e : Z) :
  (finite_value s m e == inject_Z (cond_Zopp s (Zpos m)) * 2 ^ e)%Q.
Proof.
  unfold finite_value. destruct e as [|p|p].
  - change (2 ^ 0)%Q with 1%Q. ring.
  - rewrite inject_Z_mult. change (Z.pow_pos 2 p) with (2 ^ Zpos p)%Z.
    now rewrite pow2_inject by lia.
  - rewrite Qmake_Qdiv. change (Zneg p) with (- Zpos p)%Z.
    rewrite Qpower_opp, <- pow2_inject by lia.
    rewrite Pos2Z.inj_pow. reflexivity.
Qed.

Lemma inject_Z_nonneg (z : Z) : (0 <= z)%Z -> (0 <= inject_Z z)%Q.
Proof. intros H. change 0%Q with (inject_Z 0). now rewrite <- Zle_Qle. Qed.

Lemma is_finite_value (x : spec_float) :
  is_finite x = true -> value x = XFin (real_of x).
Proof. unfold real_of. now destruct x as [?|[]| |]. Qed.

Section RoundingValue.

Variables prec emax : Z.
Hypothesis Hprec : (0 < prec)%Z.
Hypothesis Hemax : (2 <= emax)%Z.

Let emin := SpecFloat.emin prec emax.

(** [binary_round_aux] on an exact mantissa rounds the value with a
    relative error of at most [2 ^ - prec], up to the underflow term, and
    keeps the sign; it does not overflow on a value below [2 ^ K] with
    [K <= emax - prec]. *)
Lemma binary_round_aux_value (s : bool) (mx : positive) (ex K : Z) :
  let X := finite_value s mx ex in
  let R := binary_round_aux prec emax s (Zpos mx) ex loc_Exact in
  (Qabs X < 2 ^ K)%Q -> (K <= emax - prec)%Z ->
  (Qabs (real_of R - X) <= Qabs X * 2 ^ (- prec) + 2 ^ (emin - 1))%Q /\
  (R = S754_zero s \/ exists m e, R = S754_finite s m e) /\
  (forall k, (emin <= k)%Z -> (2 ^ k <= Qabs X)%Q ->
             exists m e, R = S754_finite s m e /\
                         (Zpos m < 2 ^ prec)%Z /\ (k - prec < e)%Z).
Proof.
  intros X R HK HKmax.
  destruct (binary_round_aux_spec prec emax Hprec s mx ex)
    as (m & e & Hres & Hm & He & Herr).
  fold R in Hres.
  set (d := Zpos (digits2_pos mx)) in *.
  set (E := Z.max (SpecFloat.fexp prec emax (d + ex)) ex) in *.
  assert (HEdef : E = Z.max (Z.max (d + ex - prec) emin) ex) by reflexivity.
  destruct (digits2_pos_bounds mx) as [Hdlo Hdhi]. fold d in Hdlo, Hdhi.
  assert (Hd1 : (1 <= d)%Z) by (unfold d; lia).
  (* the magnitude of the exact value *)
  set (B := (inject_Z (Zpos mx) * 2 ^ ex)%Q).
  assert (HX : (Qabs X == B)%Q).
  { unfold X, B. rewrite finite_value_pow2, Qabs_Qmult.
    rewrite (Qabs_pos (2 ^ ex)) by (apply Qlt_le_weak, pow2_pos).
    destruct s; cbn [cond_Zopp].
    - change (inject_Z (- Zpos mx)) with (- inject_Z (Zpos mx))%Q.
      rewrite Qabs_opp, Qabs_pos; [reflexivity|].
      now apply inject_Z_nonneg.
    - rewrite Qabs_pos; [reflexivity|]. now apply inject_Z_nonneg. }
  assert (HBlo : (2 ^ (d - 1 + ex) <= B)%Q).
  { unfold B. rewrite pow2_add, <- (pow2_inject (d - 1)) by lia.
    apply Qmult_le_compat_r; [|apply Qlt_le_weak, pow2_pos].
    now rewrite <- Zle_Qle. }
  assert (HBhi : (B < 2 ^ (d + ex))%Q).
  { unfold B. rewrite pow2_add, <- (pow2_inject d) by lia.
    apply Qmult_lt_compat_r; [apply pow2_pos|].
    now rewrite <- Zlt_Qlt. }
  assert (HBex : (2 ^ ex <= B)%Q).
  { unfold B. rewrite <- (Qmult_1_l (2 ^ ex)) at 1.
    apply Qmult_le_compat_r; [|apply Qlt_le_weak, pow2_pos].
    change 1%Q with (inject_Z 1). rewrite <- Zle_Qle. lia. }
  (* no overflow *)
  assert (Hov : (e <= emax - prec)%Z).
  { rewrite HX in HK.
    assert (d - 1 + ex < K)%Z by (apply pow2_lt_inv; eapply Qle_lt_trans; eassumption).
    assert (ex < K)%Z by (apply pow2_lt_inv; eapply Qle_lt_trans; eassumption).
    unfold emin, SpecFloat.emin in HEdef. lia. }
  apply Z.leb_le in Hov. rewrite Hov in Hres.
  (* the value of the result *)
  set (A := (inject_Z m * 2 ^ e)%Q).
  assert (HR : (real_of R - X == if s then - (A - B) else A - B)%Q).
  { unfold X. rewrite finite_value_pow2. fold B.
    rewrite Hres. unfold A, B.
    destruct m as [|p|p]; [| |lia].
    - unfold real_of. cbn [value]. destruct s; cbn [cond_Zopp].
      + change (inject_Z (- Zpos mx)) with (- inject_Z (Zpos mx))%Q.
        change (inject_Z 0) with 0%Q. ring.
      + change (inject_Z 0) with 0%Q. ring.
    - unfold real_of. cbn [value]. rewrite finite_value_pow2.
      destruct s; cbn [cond_Zopp].
      + change (inject_Z (- Zpos mx)) with (- inject_Z (Zpos mx))%Q.
        change (inject_Z (- Zpos p)) with (- inject_Z (Zpos p))%Q. ring.
      + ring. }
  assert (Habs : (Qabs (real_of R - X) == Qabs (A - B))%Q).
  { rewrite HR. destruct s; [apply Qabs_opp|reflexivity]. }
  (* the error in units of [2 ^ ex] *)
  assert (Hee : (0 <= e - ex)%Z) by lia.
  assert (HEe : (0 <= E - ex)%Z) by lia.
  assert (HAB : (A - B == (inject_Z (m * 2 ^ (e - ex) - Zpos mx)) * 2 ^ ex)%Q).
  { unfold A, B. rewrite <- Z.add_opp_r.
    rewrite inject_Z_plus, inject_Z_mult, inject_Z_opp.
    rewrite pow2_inject by lia.
    replace e with ((e - ex) + ex)%Z at 1 by lia.
    rewrite pow2_add. ring. }
  assert (Herr2 : (2 * Qabs (A - B) <= 2 ^ E)%Q).
  { rewrite HAB, Qabs_Qmult.
    rewrite (Qabs_pos (2 ^ ex)) by (apply Qlt_le_weak, pow2_pos).
    replace (2 ^ E)%Q with (2 ^ ((E - ex) + ex))%Q by (f_equal; lia).
    rewrite pow2_add, <- (pow2_inject (E - ex)) by lia.
    rewrite Qmult_assoc.
    apply Qmult_le_compat_r; [|apply Qlt_le_weak, pow2_pos].
    change (Qabs (inject_Z (m * 2 ^ (e - ex) - Zpos mx)))
      with (inject_Z (Z.abs (m * 2 ^ (e - ex) - Zpos mx))).
    change 2%Q with (inject_Z 2). rewrite <- inject_Z_mult, <- Zle_Qle.
    exact Herr. }
  split; [|split].
  - rewrite Habs, HX.
    assert (H0 : (0 <= B * 2 ^ (- prec))%Q).
    { apply Qmult_le_0_compat; [|apply Qlt_le_weak, pow2_pos].
      eapply Qle_trans; [apply Qlt_le_weak, pow2_pos|exact HBex]. }
    assert (H1 : (0 < 2 ^ (emin - 1))%Q) by apply pow2_pos.
    destruct (Z.eq_dec E ex) as [HEex|HEex].
    + (* no bit was dropped *)
      assert (Hz : (m * 2 ^ (e - ex) - Zpos mx = 0)%Z).
      { rewrite HEex, Z.sub_diag in Herr. change (2 ^ 0)%Z with 1%Z in Herr. lia. }
      rewrite HAB, Hz. change (inject_Z 0) with 0%Q.
      rewrite Qmult_0_l. change (Qabs 0) with 0%Q. lra.
    + destruct (Z.eq_dec E emin) as [HEmin|HEmin].
      * rewrite HEmin in Herr2.
        replace emin with ((emin - 1) + 1)%Z in Herr2 at 1 by lia.
        rewrite pow2_succ in Herr2. lra.
      * assert (HEd : E = (d + ex - prec)%Z) by lia.
        assert (Hp : (2 ^ E == 2 * (2 ^ (d - 1 + ex) * 2 ^ (- prec)))%Q).
        { rewrite HEd. rewrite <- pow2_add, <- pow2_succ.
          replace (d - 1 + ex + - prec + 1)%Z with (d + ex - prec)%Z by lia.
          reflexivity. }
        rewrite Hp in Herr2.
        assert (Hq : (2 ^ (d - 1 + ex) * 2 ^ (- prec) <= B * 2 ^ (- prec))%Q).
        { apply Qmult_le_compat_r; [exact HBlo|apply Qlt_le_weak, pow2_pos]. }
        lra.
  - destruct m as [|p|p]; [left; exact Hres|right; eauto|lia].
  - intros k Hk Hlo. rewrite HX in Hlo.
    assert (Hkd : (k < d + ex)%Z).
    { apply pow2_lt_inv. eapply Qle_lt_trans; eassumption. }
    destruct m as [|p|p]; [|exists p, e; split; [exact Hres|lia]|lia].
    exfalso.
    (* a zero result would need the whole mantissa to be dropped *)
    rewrite Z.mul_0_l, Z.sub_0_l, Z.abs_opp in Herr.
    assert (Hlt : (2 ^ (d - 1) < 2 ^ (E - ex))%Z) by lia.
    apply Z.pow_lt_mono_r_iff in Hlt; lia.
Qed.

End RoundingValue.

(** Aligning a mantissa to a smaller exponent keeps the value. *)
Lemma iter_xO_value (m d : positive) :
  Zpos (Pos.iter xO m d) = (Zpos m * 2 ^ Zpos d)%Z.
Proof.
  induction d as [|d IH] using Pos.peano_ind.
  - cbn [Pos.iter]. rewrite Z.pow_1_r. lia.
  - rewrite Pos.iter_succ, Pos2Z.inj_xO, IH, Pos2Z.inj_succ, Z.pow_succ_r by lia.
    ring.
Qed.

Lemma shl_align_spec (mx : positive) (ex ex' : Z) :
  exists k, (0 <= k)%Z /\
    shl_align mx ex ex' = (Z.to_pos (Zpos mx * 2 ^ k), (ex - k)%Z) /\
    (ex' <= ex -> k = ex - ex')%Z.
Proof.
  unfold shl_align. destruct (ex' - ex)%Z as [|d|d] eqn:Hd.
  - exists 0%Z. split; [lia|]. split; [|lia].
    rewrite Z.mul_1_r, Z.sub_0_r. reflexivity.
  - exists 0%Z. split; [lia|]. split; [|lia].
    rewrite Z.mul_1_r, Z.sub_0_r. reflexivity.
  - exists (Zpos d). split; [lia|]. split; [|lia].
    rewrite <- iter_xO_value. cbn [Z.to_pos]. f_equal. lia.
Qed.

Lemma finite_value_shift (s : bool) (m : positive) (e k : Z) :
  (0 <= k)%Z ->
  (finite_value s (Z.to_pos (Zpos m * 2 ^ k)) (e - k) == finite_value s m e)%Q.
Proof.
  intros Hk. rewrite !finite_value_pow2.
  assert (Hpos : (0 < Zpos m * 2 ^ k)%Z).
  { apply Z.mul_pos_pos; [lia|]. apply Z.pow_pos_nonneg; lia. }
  assert (Hc : cond_Zopp s (Zpos (Z.to_pos (Zpos m * 2 ^ k)))
               = (cond_Zopp s (Zpos m) * 2 ^ k)%Z).
  { rewrite Z2Pos.id by exact Hpos. destruct s; cbn [cond_Zopp]; ring. }
  rewrite Hc, inject_Z_mult, pow2_inject by exact Hk.
  replace e with ((e - k) + k)%Z at 2 by lia.
  rewrite pow2_add. ring.
Qed.

Section Operations.

Variables prec emax : Z.
Hypothesis Hprec : (0 < prec)%Z.
Hypothesis Hemax : (2 <= emax)%Z.

Let emin := SpecFloat.emin prec emax.

(** [binary_round] rounds like [binary_round_aux]. *)
Lemma binary_round_value (s : bool) (mx : positive) (ex K : Z) :
  let X := finite_value s mx ex in
  let R := binary_round prec emax s mx ex in
  (Qabs X < 2 ^ K)%Q -> (K <= emax - prec)%Z ->
  (Qabs (real_of R - X) <= Qabs X * 2 ^ (- prec) + 2 ^ (emin - 1))%Q /\
  (R = S754_zero s \/ exists m e, R = S754_finite s m e) /\
  (forall k, (emin <= k)%Z -> (2 ^ k <= Qabs X)%Q ->
             exists m e, R = S754_finite s m e /\
                         (Zpos m < 2 ^ prec)%Z /\ (k - prec < e)%Z).
Proof.
  intros X R HK HKmax. unfold R, binary_round.
  destruct (shl_align_spec mx ex
              (SpecFloat.fexp prec emax (Zpos (digits2_pos mx) + ex)))
    as (k & Hk & -> & _).
  pose proof (finite_value_shift s mx ex k Hk) as HX.
  fold X in HX.
  destruct (binary_round_aux_value prec emax Hprec Hemax s
              (Z.to_pos (Zpos mx * 2 ^ k)) (ex - k) K) as (H1 & H2 & H3).
  - now rewrite HX.
  - exact HKmax.
  - fold emin in H1, H3. rewrite HX in H1.
    split; [exact H1|]. split; [exact H2|].
    intros j Hj Hlo. apply H3; [exact Hj|now rewrite HX].
Qed.

(** Conversion of an integer. *)
Lemma binary_normalize_value (z e K : Z) :
  let X := (inject_Z z * 2 ^ e)%Q in
  let R := binary_normalize prec emax z e false in
  (Qabs X < 2 ^ K)%Q -> (K <= emax - prec)%Z ->
  (Qabs (real_of R - X) <= Qabs X * 2 ^ (- prec) + 2 ^ (emin - 1))%Q /\
  is_finite R = true /\
  (forall k, (emin <= k)%Z -> (2 ^ k <= Qabs X)%Q ->
             exists m e', R = S754_finite (z <? 0)%Z m e' /\
                          (Zpos m < 2 ^ prec)%Z /\ (k - prec < e')%Z).
Proof.
  intros X R HK HKmax. unfold R, binary_normalize.
  destruct z as [|p|p].
  - unfold X. change (inject_Z 0) with 0%Q.
    split; [|split].
    + unfold real_of. cbn [value]. rewrite Qmult_0_l.
      change (Qabs (0 - 0)) with 0%Q. change (Qabs 0) with 0%Q.
      pose proof (pow2_pos (emin - 1)). lra.
    + reflexivity.
    + intros k _ Hlo. exfalso. rewrite Qmult_0_l in Hlo.
      change (Qabs 0) with 0%Q in Hlo.
      pose proof (pow2_pos k). lra.
  - assert (HX : (finite_value false p e == X)%Q)
      by (rewrite finite_value_pow2; reflexivity).
    destruct (binary_round_value false p e K) as (H1 & H2 & H3);
      [now rewrite HX|exact HKmax|].
    rewrite HX in H1.
    split; [exact H1|]. split.
    + destruct H2 as [->|(m & e' & ->)]; reflexivity.
    + intros k Hk Hlo. apply H3; [exact Hk|now rewrite HX].
  - assert (HX : (finite_value true p e == X)%Q)
      by (rewrite finite_value_pow2; reflexivity).
    destruct (binary_round_value true p e K) as (H1 & H2 & H3);
      [now rewrite HX|exact HKmax|].
    rewrite HX in H1.
    split; [exact H1|]. split.
    + destruct H2 as [->|(m & e' & ->)]; reflexivity.
    + intros k Hk Hlo. apply H3; [exact Hk|now rewrite HX].
Qed.

End Operations.

(** ** The operations of [distance()] *)

(** The product of two positive doubles. *)
Lemma dmul_value (mx my : positive) (ex ey K : Z) :
  let X := (finite_value false mx ex * finite_value false my ey)%Q in
  let R := dmul (S754_finite false mx ex) (S754_finite false my ey) in
  (Qabs X < 2 ^ K)%Q -> (K <= 971)%Z ->
  (Qabs (real_of R - X) <= Qabs X * 2 ^ (-53) + 2 ^ (-1075))%Q /\
  (forall k, (-1074 <= k)%Z -> (2 ^ k <= Qabs X)%Q ->
             exists m e, R = S754_finite false m e /\
                         (Zpos m < 2 ^ 53)%Z /\ (k - 53 < e)%Z).
Proof.
  intros X R HK HKmax.
  assert (HX : (finite_value false (mx * my) (ex + ey) == X)%Q).
  { unfold X. rewrite !finite_value_pow2. cbn [cond_Zopp].
    rewrite Pos2Z.inj_mul, inject_Z_mult, pow2_add. ring. }
  destruct (binary_round_aux_value 53 1024 ltac:(lia) ltac:(lia) false
              (mx * my) (ex + ey) K) as (H1 & _ & H3);
    [now rewrite HX|exact HKmax|].
  rewrite HX in H1.
  split; [exact H1|].
  intros k Hk Hlo. apply H3; [exact Hk|now rewrite HX].
Qed.

Lemma div_eucl_exact (a b : Z) :
  (0 < b)%Z -> Z.div_eucl (a * b) b = (a, 0%Z).
Proof.
  intros Hb. destruct (Z.div_eucl (a * b) b) as [q r] eqn:Hd.
  assert (Hq : (a * b / b = q)%Z) by (unfold Z.div; now rewrite Hd).
  assert (Hr : ((a * b) mod b = r)%Z) by (unfold Z.modulo; now rewrite Hd).
  rewrite Z.div_mul in Hq by lia. rewrite Z.mod_mul in Hr by lia.
  now subst.
Qed.

(** A positive double divided by the double 2. *)
Lemma ddiv_two_value (m : positive) (e K : Z) :
  let X := (finite_value false m e / 2)%Q in
  let R := ddiv (S754_finite false m e) (double_of_Z 2) in
  (Zpos m < 2 ^ 53)%Z -> (-1073 <= e)%Z ->
  (Qabs X < 2 ^ K)%Q -> (K <= 971)%Z ->
  (Qabs (real_of R - X) <= Qabs X * 2 ^ (-53) + 2 ^ (-1075))%Q /\
  (forall k, (-1074 <= k)%Z -> (2 ^ k <= Qabs X)%Q ->
             exists m' e', R = S754_finite false m' e' /\
                           (Zpos m' < 2 ^ 53)%Z /\ (k - 53 < e')%Z).
Proof.
  intros X R Hm He HK HKmax.
  change (double_of_Z 2) with (S754_finite false 4503599627370496 (-51)) in R.
  assert (Hd1 : (Zdigits2 (Zpos m) <= 53)%Z) by (apply Zdigits2_le; lia).
  set (e' := Z.min (SpecFloat.fexp 53 1024
                      (Zdigits2 (Zpos m) + e
                       - (Zdigits2 (Zpos 4503599627370496) + -51)))
                   (e - -51)).
  assert (He' : (e' <= e - 1)%Z).
  { unfold e', SpecFloat.fexp, SpecFloat.emin.
    change (Zdigits2 (Zpos 4503599627370496)) with 53%Z. lia. }
  set (s := (e - -51 - e')%Z).
  assert (Hs : (52 <= s)%Z) by (unfold s; lia).
  assert (Hcore : SFdiv_core_binary 53 1024 (Zpos m) e
                    (Zpos 4503599627370496) (-51)
                  = ((Zpos m * 2 ^ (s - 52))%Z, e', loc_Exact)).
  { unfold SFdiv_core_binary. fold e'. fold s.
    destruct s as [|p|p] eqn:Hsp; try lia.
    rewrite Z.shiftl_mul_pow2 by lia.
    replace (Zpos m * 2 ^ Zpos p)%Z
      with (Zpos m * 2 ^ (Zpos p - 52) * Zpos 4503599627370496)%Z.
    - rewrite div_eucl_exact by lia. reflexivity.
    - rewrite <- Z.mul_assoc. f_equal.
      change (Zpos 4503599627370496) with (2 ^ 52)%Z.
      rewrite <- Z.pow_add_r by lia. f_equal. lia. }
  assert (Hpos : (0 < Zpos m * 2 ^ (s - 52))%Z).
  { apply Z.mul_pos_pos; [lia|]. apply Z.pow_pos_nonneg; lia. }
  assert (HR : R = binary_round_aux 53 1024 false
                     (Zpos (Z.to_pos (Zpos m * 2 ^ (s - 52)))) e' loc_Exact).
  { unfold R, ddiv, SFdiv. rewrite Hcore. cbn [xorb].
    now rewrite Z2Pos.id by exact Hpos. }
  assert (HX : (finite_value false (Z.to_pos (Zpos m * 2 ^ (s - 52))) e'
                == X)%Q).
  { assert (Hee : e' = ((e - 1) - (s - 52))%Z) by (unfold s; lia).
    rewrite Hee, finite_value_shift by lia. unfold X.
    rewrite !finite_value_pow2.
    replace e with ((e - 1) + 1)%Z at 2 by lia.
    rewrite pow2_succ. field. }
  destruct (binary_round_aux_value 53 1024 ltac:(lia) ltac:(lia) false
              (Z.to_pos (Zpos m * 2 ^ (s - 52))) e' K) as (H1 & _ & H3);
    [now rewrite HX|exact HKmax|].
  rewrite <- HR in H1, H3. rewrite HX in H1.
  split; [exact H1|].
  intros k Hk Hlo. apply H3; [exact Hk|now rewrite HX].
Qed.

Lemma shl_align_fst (s : bool) (mx : positive) (ex ez : Z) :
  (ez <= ex)%Z ->
  (inject_Z (cond_Zopp s (Zpos (fst (shl_align mx ex ez)))) * 2 ^ ez
   == finite_value s mx ex)%Q.
Proof.
  intros H. destruct (shl_align_spec mx ex ez) as (k & Hk & -> & Hkeq).
  cbn [fst]. rewrite <- (finite_value_shift s mx ex k Hk).
  rewrite finite_value_pow2. rewrite (Hkeq H).
  replace (ex - (ex - ez))%Z with ez by lia. reflexivity.
Qed.

(** The difference of two finite doubles. *)
Lemma dsub_value (sx sy : bool) (mx my : positive) (ex ey K : Z) :
  let X := (finite_value sx mx ex - finite_value sy my ey)%Q in
  let R := dsub (S754_finite sx mx ex) (S754_finite sy my ey) in
  (Qabs X < 2 ^ K)%Q -> (K <= 971)%Z ->
  (Qabs (real_of R - X) <= Qabs X * 2 ^ (-53) + 2 ^ (-1075))%Q /\
  is_finite R = true.
Proof.
  intros X R HK HKmax.
  set (ez := Z.min ex ey).
  set (z := (cond_Zopp sx (Zpos (fst (shl_align mx ex ez)))
             - cond_Zopp sy (Zpos (fst (shl_align my ey ez))))%Z).
  assert (HX : (inject_Z z * 2 ^ ez == X)%Q).
  { unfold z, X. rewrite <- Z.add_opp_r, inject_Z_plus, inject_Z_opp.
    rewrite <- (shl_align_fst sx mx ex ez), <- (shl_align_fst sy my ey ez)
      by (unfold ez; lia).
    ring. }
  destruct (binary_normalize_value 53 1024 ltac:(lia) ltac:(lia) z ez K)
    as (H1 & H2 & _); [now rewrite HX|exact HKmax|].
  rewrite HX in H1. split; [exact H1|exact H2].
Qed.

(** The conversion of a double to [float]. *)
Lemma float_of_double_value (x : spec_float) (K : Z) :
  is_finite x = true ->
  (Qabs (real_of x) < 2 ^ K)%Q -> (K <= 104)%Z ->
  (Qabs (real_of (float_of_double x) - real_of x)
   <= Qabs (real_of x) * 2 ^ (-24) + 2 ^ (-150))%Q /\
  is_finite (float_of_double x) = true.
Proof.
  intros Hfin HK HKmax. destruct x as [s|s| |s m e]; try discriminate.
  - cbn [float_of_double]. split; [|reflexivity].
    unfold real_of. cbn [value]. change (Qabs (0 - 0)) with 0%Q.
    change (Qabs 0) with 0%Q. pose proof (pow2_pos (-150)). lra.
  - cbn [float_of_double]. unfold real_of in *. cbn [value] in *.
    destruct (binary_round_value 24 128 ltac:(lia) ltac:(lia) s m e K HK HKmax)
      as (H1 & H2 & _).
    split; [exact H1|].
    destruct H2 as [->|(m' & e' & ->)]; reflexivity.
Qed.

(** ** The accuracy of [distance()] *)

Lemma to_long_small (echo : Z) :
  (0 <= echo < 2 ^ 31)%Z -> to_long echo = echo.
Proof. intros H. unfold to_long. rewrite Z.mod_small; lia. Qed.

Lemma Qabs_elim (x : Q) :
  (0 <= x /\ Qabs x == x)%Q \/ (x <= 0 /\ Qabs x == - x)%Q.
Proof.
  destruct (Qlt_le_dec x 0) as [H|H].
  - right. split; [now apply Qlt_le_weak|]. apply Qabs_neg. now apply Qlt_le_weak.
  - left. split; [exact H|]. now apply Qabs_pos.
Qed.

Ltac split_abs :=
  repeat match goal with
         | H : context [Qabs ?x] |- _ =>
             let Hs := fresh "Hs" in let He := fresh "He" in
             destruct (Qabs_elim x) as [[Hs He]|[Hs He]];
             rewrite He in *; clear He
         | |- context [Qabs ?x] =>
             let Hs := fresh "Hs" in let He := fresh "He" in
             destruct (Qabs_elim x) as [[Hs He]|[Hs He]];
             rewrite He in *; clear He
         end.

Lemma reading_eq (echo : Z) :
  reading echo =
  float_of_double
    (dsub (ddiv (dmul (double_of_Z (to_long echo)) SOUND_VELOCITY)
                (double_of_Z 2))
          (double_lit 25 10)).
Proof. reflexivity. Qed.

(** For every echo below [2 ^ 31] microseconds the [float] that
    [distance()] returns is finite and is the exact value of
    [duration * 0.034 / 2 - 2.5] up to the rounding of a [float]: half a
    unit in the last place, plus what the [double] operations and the
    [double] nearest to 0.034 contribute. *)
Lemma distance_accuracy (echo : Z) :
  (0 <= echo < 2 ^ 31)%Z ->
  is_finite (reading echo) = true /\
  (Qabs (real_of (reading echo) - distance_exact echo)
   <= Qabs (distance_exact echo) * 2 ^ (-24) + inject_Z (echo + 1) * 2 ^ (-50))%Q.
Proof.
  intros Hecho.
  destruct (Z.eq_dec echo 0) as [->|Hne].
  { split; [vm_compute; reflexivity|].
    apply Qle_bool_imp_le. vm_compute. reflexivity. }
  rewrite reading_eq, to_long_small by exact Hecho.
  set (t := inject_Z echo).
  assert (Ht1 : (1 <= t)%Q).
  { unfold t. change 1%Q with (inject_Z 1). rewrite <- Zle_Qle. lia. }
  assert (Ht2 : (t <= 2147483647)%Q).
  { unfold t. change 2147483647%Q with (inject_Z 2147483647).
    rewrite <- Zle_Qle. lia. }
  assert (Hu53 : (2 ^ (-53) == 1 # 9007199254740992)%Q) by reflexivity.
  assert (Hu24 : (2 ^ (-24) == 1 # 16777216)%Q) by reflexivity.
  assert (Hu50 : (2 ^ (-50) == 1 # 1125899906842624)%Q) by reflexivity.
  assert (Ha : (0 < 2 ^ (-1075) <= 1 # 1267650600228229401496703205376)%Q).
  { split; [apply pow2_pos|].
    change (1 # 1267650600228229401496703205376)%Q with (2 ^ (-100))%Q.
    apply pow2_le. lia. }
  assert (Ha' : (0 < 2 ^ (-150) <= 1 # 1267650600228229401496703205376)%Q).
  { split; [apply pow2_pos|].
    change (1 # 1267650600228229401496703205376)%Q with (2 ^ (-100))%Q.
    apply pow2_le. lia. }
  set (a := (2 ^ (-1075))%Q) in *. set (a' := (2 ^ (-150))%Q) in *.
  (* the duration as a double *)
  destruct (binary_normalize_value 53 1024 ltac:(lia) ltac:(lia) echo 0 31)
    as (HT & _ & HTfin).
  { change (2 ^ 0)%Q with 1%Q. fold t. rewrite Qmult_1_r, Qabs_pos by lra.
    change (2 ^ 31)%Q with 2147483648%Q. lra. }
  { lia. }
  change (SpecFloat.emin 53 1024) with (-1074)%Z in HT, HTfin.
  change (-1074 - 1)%Z with (-1075)%Z in HT. fold a in HT.
  change (2 ^ 0)%Q with 1%Q in HT, HTfin. fold t in HT, HTfin.
  rewrite Qmult_1_r in HT.
  destruct (HTfin 0%Z ltac:(lia)) as (mT & eT & HTeq & _ & _).
  { rewrite Qmult_1_r, Qabs_pos by lra. change (2 ^ 0)%Q with 1%Q. lra. }
  clear HTfin. fold (double_of_Z echo) in HT, HTeq.
  replace (echo <? 0)%Z with false in HTeq by (symmetry; apply Z.ltb_ge; lia).
  rewrite HTeq in *. unfold real_of in HT. cbn [value] in HT.
  set (vT := finite_value false mT eT) in *.
  rewrite Hu53 in HT. rewrite (Qabs_pos t) in HT by lra.
  assert (HvT : (1 # 2 <= vT <= 2147483649)%Q).
  { revert HT. split_abs; intros; lra. }
  (* times the speed of sound *)
  change SOUND_VELOCITY with (S754_finite false 4899916394579100 (-57)).
  set (c := finite_value false 4899916394579100 (-57)).
  assert (Hc : (c == 4899916394579100 # 144115188075855872)%Q) by reflexivity.
  destruct (dmul_value mT 4899916394579100 eT (-57) 28) as (HP & HPfin).
  { fold vT. fold c. rewrite Hc, Qabs_pos by nra.
    change (2 ^ 28)%Q with 268435456%Q. nra. }
  { lia. }
  fold vT in HP, HPfin. fold c in HP, HPfin. fold a in HP.
  destruct (HPfin (-6)%Z ltac:(lia)) as (mP & eP & HPeq & HmP & HeP).
  { rewrite Hc, Qabs_pos by nra. change (2 ^ (-6))%Q with (1 # 64)%Q. nra. }
  clear HPfin. rewrite HPeq in *. unfold real_of in HP. cbn [value] in HP.
  set (vP := finite_value false mP eP) in *.
  rewrite Hu53, Hc in HP. rewrite (Qabs_pos (vT * _)) in HP by nra.
  assert (HvP : (1 # 64 <= vP <= 134217728)%Q).
  { revert HP. split_abs; intros; nra. }
  (* halved *)
  destruct (ddiv_two_value mP eP 27 HmP ltac:(lia)) as (HH & HHfin).
  { fold vP. unfold Qdiv. change (/ 2)%Q with (1 # 2)%Q.
    rewrite Qabs_pos by lra. change (2 ^ 27)%Q with 134217728%Q. lra. }
  { lia. }
  fold vP in HH, HHfin. fold a in HH.
  unfold Qdiv in HH, HHfin. change (/ 2)%Q with (1 # 2)%Q in HH, HHfin.
  destruct (HHfin (-7)%Z ltac:(lia)) as (mH & eH & HHeq & _ & _).
  { rewrite Qabs_pos by lra. change (2 ^ (-7))%Q with (1 # 128)%Q. lra. }
  clear HHfin. rewrite HHeq in *. unfold real_of in HH. cbn [value] in HH.
  set (vH := finite_value false mH eH) in *.
  rewrite Hu53 in HH. rewrite (Qabs_pos (vP * _)) in HH by lra.
  assert (HvH : (1 # 128 <= vH <= 67108865)%Q).
  { revert HH. split_abs; intros; lra. }
  (* minus the offset *)
  change (double_lit 25 10)
    with (S754_finite false 5629499534213120 (-51)).
  assert (Hoff : (finite_value false 5629499534213120 (-51) == 5 # 2)%Q)
    by reflexivity.
  destruct (dsub_value false false mH 5629499534213120 eH (-51) 27)
    as (HY & HYfin).
  { fold vH. rewrite Hoff. change (2 ^ 27)%Q with 134217728%Q.
    split_abs; lra. }
  { lia. }
  fold vH in HY. fold a in HY. rewrite Hoff, Hu53 in HY.
  set (Y := dsub (S754_finite false mH eH)
                 (S754_finite false 5629499534213120 (-51))) in *.
  set (vY := real_of Y) in *.
  assert (HvY : (Qabs vY < 2 ^ 28)%Q).
  { change (2 ^ 28)%Q with 268435456%Q. revert HY. split_abs; intros; lra. }
  (* rounded to float *)
  destruct (float_of_double_value Y 28 HYfin HvY ltac:(lia)) as (HR & HRfin).
  fold vY in HR. fold a' in HR. rewrite Hu24 in HR.
  split; [exact HRfin|].
  set (vR := real_of (float_of_double Y)) in *.
  unfold distance_exact, Qdiv. change (/ 2)%Q with (1 # 2)%Q.
  fold t. rewrite Hu24, Hu50.
  rewrite inject_Z_plus. fold t. change (inject_Z 1) with 1%Q.
  clear - Ht1 Ht2 Ha Ha' HT HP HH HY HR.
  revert HT HP HH HY HR. generalize a a' Ha Ha'. clear.
  intros a a' Ha Ha' HT HP HH HY HR.
  split_abs; lra.
Qed.

(** ** The value [distance()] returns *)

(** C8 as stated fails: for an echo of 1000 microseconds the conversion by
    the speed of sound alone gives 17 cm, [distance()] returns 14.5 cm. *)
Lemma distance_is_not_sound_only :
  fcompare (distance_by_sound_only 1000) (float_of_Z 17) = Some Eq /\
  fcompare (fst (distance 1000 board0)) (double_lit 145 10) = Some Eq /\
  fst (distance 1000 board0) <> distance_by_sound_only 1000.
Proof.
  split; [vm_compute; reflexivity|].
  split; [vm_compute; reflexivity|].
  vm_compute. discriminate.
Qed.

(** C8, as the code has it: [distance()] stores the echo duration in
    [duration], converts it in [double] arithmetic to
    [duration * SOUND_VELOCITY / 2 - 2.5], stores that rounded to [float]
    in [distanceCm] and returns it, whatever the board held before and
    without touching the motor outputs; for an echo below [2 ^ 31]
    microseconds the value returned is the exact
    [duration * 0.034 / 2 - 2.5] up to the rounding of a [float]; with no
    echo (duration 0) it returns -2.5, which is negative. *)
Theorem distance_subtracts_offset (echo : Z) (s : board) :
  fst (distance echo s) =
    float_of_double
      (dsub (ddiv (dmul (double_of_Z (to_long echo)) SOUND_VELOCITY)
                  (double_of_Z 2))
            (double_lit 25 10)) /\
  duration (snd (distance echo s)) = to_long echo /\
  distanceCm (snd (distance echo s)) = fst (distance echo s) /\
  motor (snd (distance echo s)) = motor s /\
  (0 <= echo < 2 ^ 31 ->
   is_finite (fst (distance echo s)) = true /\
   (Qabs (real_of (fst (distance echo s)) - distance_exact echo)
    <= Qabs (distance_exact echo) * 2 ^ (-24)
       + inject_Z (echo + 1) * 2 ^ (-50))%Q) /\
  fcompare (fst (distance 0 s)) (double_lit (-25) 10) = Some Eq /\
  flt (fst (distance 0 s)) zero = true.
Proof.
  split; [reflexivity|].
  split; [reflexivity|].
  split; [reflexivity|].
  split; [reflexivity|].
  split.
  { intros Hecho. rewrite distance_returns. now apply distance_accuracy. }
  rewrite distance_returns.
  split; vm_compute; reflexivity.
Qed.

Lemma distance_subtracts_offset_witness :
  0 <= 1000 < 2 ^ 31 /\
  is_finite (fst (distance 1000 board0)) = true /\
  (Qabs (real_of (fst (distance 1000 board0)) - distance_exact 1000)
   <= Qabs (distance_exact 1000) * 2 ^ (-24)
      + inject_Z (1000 + 1) * 2 ^ (-50))%Q.
Proof.
  assert (H : 0 <= 1000 < 2 ^ 31) by lia.
  split; [exact H|].
  exact (proj1 (proj2 (proj2 (proj2 (proj2
           (distance_subtracts_offset 1000 board0))))) H).
Defined.

(** ** Samples by echo duration *)

Lemma fcompare_finite (a b : spec_float) :
  is_finite a = true -> is_finite b = true ->
  fcompare a b = Some (real_of a ?= real_of b)%Q.
Proof.
  intros Ha Hb. unfold fcompare.
  now rewrite (is_finite_value a Ha), (is_finite_value b Hb).
Qed.

Lemma flt_finite_iff (a b : spec_float) :
  is_finite a = true -> is_finite b = true ->
  (flt a b = true <-> (real_of a < real_of b)%Q).
Proof.
  intros Ha Hb. unfold flt. rewrite (fcompare_finite a b Ha Hb), Qlt_alt.
  destruct (real_of a ?= real_of b)%Q; split; congruence.
Qed.


(** The sample of an echo between linear bounds in the echo. *)
Lemma reading_enclosure (echo : Z) :
  0 <= echo < 2 ^ 31 ->
  let t := inject_Z echo in
  let x := (t * (17 # 1000) - (5 # 2))%Q in
  let err := ((t * (17 # 1000) + (5 # 2)) * (1 # 16777216)
              + (t + 1) * (1 # 1125899906842624))%Q in
  is_finite (reading echo) = true /\
  (x - err <= real_of (reading echo) <= x + err)%Q.
Proof.
  intros Hecho t x err.
  destruct (distance_accuracy echo Hecho) as [Hfin Hacc].
  split; [exact Hfin|].
  assert (Ht : (0 <= t)%Q) by (apply inject_Z_nonneg; lia).
  unfold distance_exact, Qdiv in Hacc. change (/ 2)%Q with (1 # 2)%Q in Hacc.
  fold t in Hacc. rewrite inject_Z_plus in Hacc. fold t in Hacc.
  change (inject_Z 1) with 1%Q in Hacc.
  change (2 ^ (-24))%Q with (1 # 16777216)%Q in Hacc.
  change (2 ^ (-50))%Q with (1 # 1125899906842624)%Q in Hacc.
  unfold x, err. revert Hacc. generalize (real_of (reading echo)). intros r Hacc.
  destruct (Qabs_elim (r - (t * (34 # 1000) * (1 # 2) - (5 # 2)))) as [[H1 E1]|[H1 E1]];
  destruct (Qabs_elim (t * (34 # 1000) * (1 # 2) - (5 # 2))) as [[H2 E2]|[H2 E2]];
  rewrite E1, E2 in Hacc; lra.
Qed.

Ltac z2q H :=
  match type of H with
  | (?a <= ?b)%Z =>
      let H' := fresh "Hq" in
      assert (H' : (inject_Z a <= inject_Z b)%Q) by (rewrite <- Zle_Qle; exact H)
  end.

(** An echo as a bound on its sample: below [lo] microseconds the sample
    is below [lo * 0.017 - 2.5] up to the rounding, and so on. *)
Lemma reading_lt (echo k : Z) (c : spec_float) (q : Q) :
  0 <= echo <= k -> k < 2 ^ 31 ->
  is_finite c = true -> (real_of c == q)%Q ->
  (inject_Z k * (17 # 1000) - (5 # 2)
   + ((inject_Z k * (17 # 1000) + (5 # 2)) * (1 # 16777216)
      + (inject_Z k + 1) * (1 # 1125899906842624)) < q)%Q ->
  flt (reading echo) c = true.
Proof.
  intros [H0 Hk] Hk31 Hc Hq Hlt.
  destruct (reading_enclosure echo ltac:(lia)) as [Hfin [_ Hhi]].
  apply (flt_finite_iff _ _ Hfin Hc). rewrite Hq.
  z2q H0. z2q Hk. change (inject_Z 0) with 0%Q in *.
  revert Hhi Hlt Hq0 Hq1.
  generalize (real_of (reading echo)) (inject_Z echo) (inject_Z k).
  intros r t K. intros. lra.
Qed.

Lemma reading_gt (echo k : Z) (c : spec_float) (q : Q) :
  0 <= k <= echo -> echo < 2 ^ 31 ->
  is_finite c = true -> (real_of c == q)%Q ->
  (q < inject_Z k * (17 # 1000) * (16777215 # 16777216)
       - (5 # 2) * (16777217 # 16777216)
       - (inject_Z k + 1) * (1 # 1125899906842624))%Q ->
  flt c (reading echo) = true.
Proof.
  intros [H0 Hk] Hk31 Hc Hq Hlt.
  destruct (reading_enclosure echo ltac:(lia)) as [Hfin [Hlo _]].
  apply (flt_finite_iff _ _ Hc Hfin). rewrite Hq.
  z2q H0. z2q Hk. change (inject_Z 0) with 0%Q in *.
  revert Hlo Hlt Hq0 Hq1.
  generalize (real_of (reading echo)) (inject_Z echo) (inject_Z k).
  intros r t K. intros. lra.
Qed.

Lemma thresholds_finite :
  is_finite zero = true /\
  (forall t, is_finite (lower t) = true /\ is_finite (upper t) = true).
Proof. split; [reflexivity|]. intros t. destruct t; split; vm_compute; reflexivity. Qed.

Lemma thresholds_real (t : target) :
  (real_of zero == 0)%Q /\
  (real_of (lower t) == match t with Ground => 197 # 2 | First => 71 | Second => 38 end)%Q /\
  (real_of (upper t) == match t with Ground => 199 # 2 | First => 143 # 2 | Second => 39 end)%Q.
Proof. destruct t; split; [|split| |split| |split]; vm_compute; reflexivity. Qed.

(** ** Durations that wrap to negative *)

(** The product of a finite double of either sign and a positive one. *)
Lemma dmul_value_signed (sx : bool) (mx my : positive) (ex ey K : Z) :
  let X := (finite_value sx mx ex * finite_value false my ey)%Q in
  let R := dmul (S754_finite sx mx ex) (S754_finite false my ey) in
  (Qabs X < 2 ^ K)%Q -> (K <= 971)%Z ->
  (Qabs (real_of R - X) <= Qabs X * 2 ^ (-53) + 2 ^ (-1075))%Q /\
  (forall k, (-1074 <= k)%Z -> (2 ^ k <= Qabs X)%Q ->
             exists m e, R = S754_finite sx m e /\
                         (Zpos m < 2 ^ 53)%Z /\ (k - 53 < e)%Z).
Proof.
  intros X R HK HKmax.
  assert (HX : (finite_value sx (mx * my) (ex + ey) == X)%Q).
  { unfold X. rewrite !finite_value_pow2. cbn [cond_Zopp].
    rewrite pow2_add.
    destruct sx; cbn [cond_Zopp].
    - rewrite Pos2Z.inj_mul, !inject_Z_opp, inject_Z_mult. ring.
    - rewrite Pos2Z.inj_mul, inject_Z_mult. ring. }
  assert (Hs : xorb sx false = sx) by (now destruct sx).
  destruct (binary_round_aux_value 53 1024 ltac:(lia) ltac:(lia) sx
              (mx * my) (ex + ey) K) as (H1 & _ & H3);
    [now rewrite HX|exact HKmax|].
  rewrite HX in H1.
  unfold R, dmul, SFmul. rewrite Hs.
  split; [exact H1|].
  intros k Hk Hlo. apply H3; [exact Hk|now rewrite HX].
Qed.

(** A finite double of either sign divided by the double 2. *)
Lemma ddiv_two_value_signed (sg : bool) (m : positive) (e K : Z) :
  let X := (finite_value sg m e / 2)%Q in
  let R := ddiv (S754_finite sg m e) (double_of_Z 2) in
  (Zpos m < 2 ^ 53)%Z -> (-1073 <= e)%Z ->
  (Qabs X < 2 ^ K)%Q -> (K <= 971)%Z ->
  (Qabs (real_of R - X) <= Qabs X * 2 ^ (-53) + 2 ^ (-1075))%Q /\
  (forall k, (-1074 <= k)%Z -> (2 ^ k <= Qabs X)%Q ->
             exists m' e', R = S754_finite sg m' e' /\
                           (Zpos m' < 2 ^ 53)%Z /\ (k - 53 < e')%Z).
Proof.
  intros X R Hm He HK HKmax.
  change (double_of_Z 2) with (S754_finite false 4503599627370496 (-51)) in R.
  assert (Hd1 : (Zdigits2 (Zpos m) <= 53)%Z) by (apply Zdigits2_le; lia).
  set (e' := Z.min (SpecFloat.fexp 53 1024
                      (Zdigits2 (Zpos m) + e
                       - (Zdigits2 (Zpos 4503599627370496) + -51)))
                   (e - -51)).
  assert (He' : (e' <= e - 1)%Z).
  { unfold e', SpecFloat.fexp, SpecFloat.emin.
    change (Zdigits2 (Zpos 4503599627370496)) with 53%Z. lia. }
  set (s := (e - -51 - e')%Z).
  assert (Hs : (52 <= s)%Z) by (unfold s; lia).
  assert (Hcore : SFdiv_core_binary 53 1024 (Zpos m) e
                    (Zpos 4503599627370496) (-51)
                  = ((Zpos m * 2 ^ (s - 52))%Z, e', loc_Exact)).
  { unfold SFdiv_core_binary. fold e'. fold s.
    destruct s as [|p|p] eqn:Hsp; try lia.
    rewrite Z.shiftl_mul_pow2 by lia.
    replace (Zpos m * 2 ^ Zpos p)%Z
      with (Zpos m * 2 ^ (Zpos p - 52) * Zpos 4503599627370496)%Z.
    - rewrite div_eucl_exact by lia. reflexivity.
    - rewrite <- Z.mul_assoc. f_equal.
      change (Zpos 4503599627370496) with (2 ^ 52)%Z.
      rewrite <- Z.pow_add_r by lia. f_equal. lia. }
  assert (Hpos : (0 < Zpos m * 2 ^ (s - 52))%Z).
  { apply Z.mul_pos_pos; [lia|]. apply Z.pow_pos_nonneg; lia. }
  assert (Hx : xorb sg false = sg) by (now destruct sg).
  assert (HR : R = binary_round_aux 53 1024 sg
                     (Zpos (Z.to_pos (Zpos m * 2 ^ (s - 52)))) e' loc_Exact).
  { unfold R, ddiv, SFdiv. rewrite Hcore, Hx.
    now rewrite Z2Pos.id by exact Hpos. }
  assert (HX : (finite_value sg (Z.to_pos (Zpos m * 2 ^ (s - 52))) e'
                == X)%Q).
  { assert (Hee : e' = ((e - 1) - (s - 52))%Z) by (unfold s; lia).
    rewrite Hee, finite_value_shift by lia. unfold X.
    rewrite !finite_value_pow2.
    replace e with ((e - 1) + 1)%Z at 2 by lia.
    rewrite pow2_succ. field. }
  destruct (binary_round_aux_value 53 1024 ltac:(lia) ltac:(lia) sg
              (Z.to_pos (Zpos m * 2 ^ (s - 52))) e' K) as (H1 & _ & H3);
    [now rewrite HX|exact HKmax|].
  rewrite <- HR in H1, H3. rewrite HX in H1.
  split; [exact H1|].
  intros k Hk Hlo. apply H3; [exact Hk|now rewrite HX].
Qed.

(** A negative duration, which is what the [long] holds when [pulseIn]
    returns [2 ^ 31] or more, gives a sample below -2. *)
Lemma negative_duration_sample (d : Z) :
  - 2 ^ 31 <= d < 0 ->
  let r := float_of_double
             (dsub (ddiv (dmul (double_of_Z d) SOUND_VELOCITY) (double_of_Z 2))
                   (double_lit 25 10)) in
  is_finite r = true /\ (real_of r < - (2))%Q.
Proof.
  intros Hd.
  set (t := inject_Z d).
  assert (Ht1 : (t <= -1)%Q).
  { unfold t. change (-1)%Q with (inject_Z (-1)). rewrite <- Zle_Qle. lia. }
  assert (Ht2 : (-2147483648 <= t)%Q).
  { unfold t. change (-2147483648)%Q with (inject_Z (-2147483648)).
    rewrite <- Zle_Qle. lia. }
  assert (Hu53 : (2 ^ (-53) == 1 # 9007199254740992)%Q) by reflexivity.
  assert (Hu24 : (2 ^ (-24) == 1 # 16777216)%Q) by reflexivity.
  assert (Ha : (0 < 2 ^ (-1075) <= 1 # 1267650600228229401496703205376)%Q).
  { split; [apply pow2_pos|].
    change (1 # 1267650600228229401496703205376)%Q with (2 ^ (-100))%Q.
    apply pow2_le. lia. }
  assert (Ha' : (0 < 2 ^ (-150) <= 1 # 1267650600228229401496703205376)%Q).
  { split; [apply pow2_pos|].
    change (1 # 1267650600228229401496703205376)%Q with (2 ^ (-100))%Q.
    apply pow2_le. lia. }
  set (a := (2 ^ (-1075))%Q) in *. set (a' := (2 ^ (-150))%Q) in *.
  (* the duration as a double *)
  destruct (binary_normalize_value 53 1024 ltac:(lia) ltac:(lia) d 0 32)
    as (HT & _ & HTfin).
  { change (2 ^ 0)%Q with 1%Q. fold t. rewrite Qmult_1_r, Qabs_neg by lra.
    change (2 ^ 32)%Q with 4294967296%Q. lra. }
  { lia. }
  change (SpecFloat.emin 53 1024) with (-1074)%Z in HT, HTfin.
  change (-1074 - 1)%Z with (-1075)%Z in HT. fold a in HT.
  change (2 ^ 0)%Q with 1%Q in HT, HTfin. fold t in HT, HTfin.
  rewrite Qmult_1_r in HT.
  destruct (HTfin 0%Z ltac:(lia)) as (mT & eT & HTeq & _ & _).
  { rewrite Qmult_1_r, Qabs_neg by lra. change (2 ^ 0)%Q with 1%Q. lra. }
  clear HTfin. fold (double_of_Z d) in HT, HTeq.
  replace (d <? 0)%Z with true in HTeq by (symmetry; apply Z.ltb_lt; lia).
  cbv zeta. rewrite HTeq in *. unfold real_of in HT. cbn [value] in HT.
  set (vT := finite_value true mT eT) in *.
  rewrite Hu53 in HT. rewrite (Qabs_neg t) in HT by lra.
  assert (HvT : (-2147483649 <= vT <= - (1 # 2))%Q).
  { revert HT. split_abs; intros; lra. }
  (* times the speed of sound *)
  change SOUND_VELOCITY with (S754_finite false 4899916394579100 (-57)).
  set (c := finite_value false 4899916394579100 (-57)).
  assert (Hc : (c == 4899916394579100 # 144115188075855872)%Q) by reflexivity.
  destruct (dmul_value_signed true mT 4899916394579100 eT (-57) 28)
    as (HP & HPfin).
  { fold vT. fold c. rewrite Hc, Qabs_neg by nra.
    change (2 ^ 28)%Q with 268435456%Q. nra. }
  { lia. }
  fold vT in HP, HPfin. fold c in HP, HPfin. fold a in HP.
  destruct (HPfin (-6)%Z ltac:(lia)) as (mP & eP & HPeq & HmP & HeP).
  { rewrite Hc, Qabs_neg by nra. change (2 ^ (-6))%Q with (1 # 64)%Q. nra. }
  clear HPfin. rewrite HPeq in *. unfold real_of in HP. cbn [value] in HP.
  set (vP := finite_value true mP eP) in *.
  rewrite Hu53, Hc in HP. rewrite (Qabs_neg (vT * _)) in HP by nra.
  assert (HvP : (-134217728 <= vP <= - (1 # 64))%Q).
  { revert HP. split_abs; intros; nra. }
  (* halved *)
  destruct (ddiv_two_value_signed true mP eP 27 HmP ltac:(lia)) as (HH & HHfin).
  { fold vP. unfold Qdiv. change (/ 2)%Q with (1 # 2)%Q.
    rewrite Qabs_neg by lra. change (2 ^ 27)%Q with 134217728%Q. lra. }
  { lia. }
  fold vP in HH, HHfin. fold a in HH.
  unfold Qdiv in HH, HHfin. change (/ 2)%Q with (1 # 2)%Q in HH, HHfin.
  destruct (HHfin (-7)%Z ltac:(lia)) as (mH & eH & HHeq & _ & _).
  { rewrite Qabs_neg by lra. change (2 ^ (-7))%Q with (1 # 128)%Q. lra. }
  clear HHfin. rewrite HHeq in *. unfold real_of in HH. cbn [value] in HH.
  set (vH := finite_value true mH eH) in *.
  rewrite Hu53 in HH. rewrite (Qabs_neg (vP * _)) in HH by lra.
  assert (HvH : (-67108865 <= vH <= - (1 # 128))%Q).
  { revert HH. split_abs; intros; lra. }
  (* minus the offset *)
  change (double_lit 25 10)
    with (S754_finite false 5629499534213120 (-51)).
  assert (Hoff : (finite_value false 5629499534213120 (-51) == 5 # 2)%Q)
    by reflexivity.
  destruct (dsub_value true false mH 5629499534213120 eH (-51) 27)
    as (HY & HYfin).
  { fold vH. rewrite Hoff. change (2 ^ 27)%Q with 134217728%Q.
    split_abs; lra. }
  { lia. }
  fold vH in HY. fold a in HY. rewrite Hoff, Hu53 in HY.
  set (Y := dsub (S754_finite true mH eH)
                 (S754_finite false 5629499534213120 (-51))) in *.
  set (vY := real_of Y) in *.
  assert (HvY : (Qabs vY < 2 ^ 28)%Q).
  { change (2 ^ 28)%Q with 268435456%Q. revert HY. split_abs; intros; lra. }
  (* rounded to float *)
  destruct (float_of_double_value Y 28 HYfin HvY ltac:(lia)) as (HR & HRfin).
  fold vY in HR. fold a' in HR. rewrite Hu24 in HR.
  split; [exact HRfin|].
  set (vR := real_of (float_of_double Y)) in *.
  revert HH HY HR. generalize a a' Ha Ha' vH HvH vY vR. clear.
  intros a a' Ha Ha' vH HvH vY vR HH HY HR.
  split_abs; lra.
Qed.

(** ** Samples at or above the upper bound *)






(** ** The sign of a sample and the echo windows of the bands *)

Lemma to_long_range (z : Z) : - 2 ^ 31 <= to_long z < 2 ^ 31.
Proof.
  unfold to_long.
  pose proof (Z.mod_pos_bound (z + 2 ^ 31) (2 ^ 32) ltac:(lia)). lia.
Qed.

Lemma distance_duration (echo : Z) (s : board) :
  duration (snd (distance echo s)) = to_long echo.
Proof. reflexivity. Qed.

(** The sample is a function of the duration the [long] holds, and is
    below -2 when that duration is negative. *)
Lemma reading_cases (echo : Z) :
  (0 <= to_long echo < 2 ^ 31 /\ reading echo = reading (to_long echo)) \/
  (to_long echo < 0 /\
   is_finite (reading echo) = true /\ (real_of (reading echo) < - (2))%Q).
Proof.
  pose proof (to_long_range echo) as Hr.
  destruct (Z_lt_le_dec (to_long echo) 0) as [H|H].
  - right. split; [exact H|]. rewrite reading_eq.
    apply negative_duration_sample. lia.
  - left. split; [lia|]. rewrite !reading_eq.
    rewrite (to_long_small (to_long echo)) by lia. reflexivity.
Qed.

Lemma reading_positive_ranged (echo : Z) :
  0 <= echo < 2 ^ 31 ->
  (flt zero (reading echo) = true <-> 148 <= echo) /\
  (flt (reading echo) zero = true <-> echo <= 147).
Proof.
  intros Hecho.
  destruct thresholds_finite as [Hz _].
  destruct (thresholds_real Ground) as [Hz0 _].
  assert (Hpos : 148 <= echo -> flt zero (reading echo) = true).
  { intros H. apply (reading_gt echo 148 zero 0); try lia; trivial.
    vm_compute. reflexivity. }
  assert (Hneg : echo <= 147 -> flt (reading echo) zero = true).
  { intros H. apply (reading_lt echo 147 zero 0); try lia; trivial.
    vm_compute. reflexivity. }
  split; split; trivial; intros H.
  - destruct (Z_le_gt_dec 148 echo) as [|Hs]; [assumption|].
    rewrite (flt_irrefl_sym _ _ (Hneg ltac:(lia))) in H. discriminate.
  - destruct (Z_le_gt_dec echo 147) as [|Hs]; [assumption|].
    rewrite (flt_irrefl_sym _ _ (Hpos ltac:(lia))) in H. discriminate.
Qed.

Lemma reading_sign (echo : Z) :
  (flt zero (reading echo) = true <-> 148 <= to_long echo) /\
  (flt (reading echo) zero = true <-> to_long echo <= 147).
Proof.
  destruct (reading_cases echo) as [[H0 ->]|(Hneg & Hfin & Hlt)].
  - apply reading_positive_ranged. exact H0.
  - destruct thresholds_finite as [Hz _].
    destruct (thresholds_real Ground) as [Hz0 _].
    assert (Hn : flt (reading echo) zero = true).
    { apply (flt_finite_iff _ _ Hfin Hz). rewrite Hz0. lra. }
    split; split; intros H.
    + rewrite (flt_irrefl_sym _ _ Hn) in H. discriminate H.
    + lia.
    + lia.
    + exact Hn.
Qed.

Lemma in_band_ranged (t : target) (echo : Z) :
  0 <= echo < 2 ^ 31 ->
  in_band t (reading echo) = in_window t echo.
Proof.
  intros Hecho.
  destruct thresholds_finite as [_ Hf].
  destruct (Hf t) as [Hlo Hhi].
  destruct (thresholds_real t) as (_ & Hrlo & Hrhi).
  unfold in_band, in_window.
  destruct (Z.leb_spec (fst (window t)) echo) as [H1|H1].
  - destruct (Z.leb_spec echo (snd (window t))) as [H2|H2].
    + (* inside the window *)
      destruct (Z.eq_dec echo 6000) as [->|Hne];
        [destruct t; try (cbn in H2; lia); vm_compute; reflexivity|].
      assert (Hin : flt (lower t) (reading echo) = true /\
                    flt (reading echo) (upper t) = true).
      { destruct t; cbn [window fst snd] in H1, H2; split.
        - apply (reading_gt echo 5942 _ _ ltac:(lia) ltac:(lia) Hlo Hrlo).
          vm_compute. reflexivity.
        - apply (reading_lt echo 5999 _ _ ltac:(lia) ltac:(lia) Hhi Hrhi).
          vm_compute. reflexivity.
        - apply (reading_gt echo 4324 _ _ ltac:(lia) ltac:(lia) Hlo Hrlo).
          vm_compute. reflexivity.
        - apply (reading_lt echo 4352 _ _ ltac:(lia) ltac:(lia) Hhi Hrhi).
          vm_compute. reflexivity.
        - apply (reading_gt echo 2383 _ _ ltac:(lia) ltac:(lia) Hlo Hrlo).
          vm_compute. reflexivity.
        - apply (reading_lt echo 2441 _ _ ltac:(lia) ltac:(lia) Hhi Hrhi).
          vm_compute. reflexivity. }
      destruct Hin as [Ha Hb].
      now rewrite (flt_fle _ _ Ha), (flt_fle _ _ Hb).
    + (* above the window *)
      assert (Hout : flt (upper t) (reading echo) = true).
      { destruct t; cbn [window fst snd] in H2.
        - apply (reading_gt echo 6001 _ _ ltac:(lia) ltac:(lia) Hhi Hrhi).
          vm_compute. reflexivity.
        - apply (reading_gt echo 4353 _ _ ltac:(lia) ltac:(lia) Hhi Hrhi).
          vm_compute. reflexivity.
        - apply (reading_gt echo 2442 _ _ ltac:(lia) ltac:(lia) Hhi Hrhi).
          vm_compute. reflexivity. }
      rewrite (flt_not_fle _ _ Hout). apply andb_false_r.
  - (* below the window *)
    assert (Hout : flt (reading echo) (lower t) = true).
    { destruct t; cbn [window fst snd] in H1.
      - apply (reading_lt echo 5941 _ _ ltac:(lia) ltac:(lia) Hlo Hrlo).
        vm_compute. reflexivity.
      - apply (reading_lt echo 4323 _ _ ltac:(lia) ltac:(lia) Hlo Hrlo).
        vm_compute. reflexivity.
      - apply (reading_lt echo 2382 _ _ ltac:(lia) ltac:(lia) Hlo Hrlo).
        vm_compute. reflexivity. }
    now rewrite (flt_not_fle _ _ Hout).
Qed.

Lemma in_band_reading (t : target) (echo : Z) :
  in_band t (reading echo) = in_window t (to_long echo).
Proof.
  destruct (reading_cases echo) as [[H0 ->]|(Hneg & Hfin & Hlt)].
  - apply in_band_ranged. exact H0.
  - assert (Hout : flt (reading echo) (lower t) = true).
    { destruct thresholds_finite as [_ Hf]. destruct (Hf t) as [Hlo _].
      destruct (thresholds_real t) as (_ & Hrlo & _).
      apply (flt_finite_iff _ _ Hfin Hlo). rewrite Hrlo. destruct t; lra. }
    unfold in_band, in_window. rewrite (flt_not_fle _ _ Hout).
    cbn [andb]. symmetry. apply andb_false_iff. left. apply Z.leb_gt.
    destruct t; cbn [window fst]; lia.
Qed.

(** X1: the sample [distance()] returns is positive exactly when the
    duration it has stored is at least 148 microseconds, and negative
    exactly when it is at most 147: a missing echo and every duration that
    wraps to a negative [long] give a negative sample, and no duration
    gives the sample 0. *)
Theorem distance_sample_sign (echo : Z) (s : board) :
  (flt zero (fst (distance echo s)) = true <->
   148 <= duration (snd (distance echo s))) /\
  (flt (fst (distance echo s)) zero = true <->
   duration (snd (distance echo s)) <= 147) /\
  duration (snd (distance echo s)) = to_long echo.
Proof.
  rewrite distance_returns, distance_duration.
  destruct (reading_sign echo) as [Hp Hn].
  split; [exact Hp|]. split; [exact Hn|reflexivity].
Qed.

(** X2: the sample [distance()] returns lies in the tolerance band of a
    target exactly when the duration it has stored lies in the window of
    the target: 5942 to 6000 microseconds for the Ground floor, 4324 to
    4352 for the First, 2383 to 2441 for the Second. *)
Theorem distance_in_band_iff (t : target) (echo : Z) (s : board) :
  in_band t (fst (distance echo s)) =
  in_window t (duration (snd (distance echo s))).
Proof.
  rewrite distance_returns, distance_duration. apply in_band_reading.
Qed.

(** ** When a loop body breaks *)

Lemma keeps_seeking_exits (t : target) (d : spec_float) :
  keeps_seeking t d = negb (exits t d).
Proof.
  unfold keeps_seeking, exits.
  destruct t; destruct (in_band _ d); cbn [negb andb orb]; try reflexivity.
  now rewrite negb_involutive.
Qed.

Lemma Left_not_positive (d : spec_float) (s : board) :
  flt zero d = false ->
  fst (Left_body d s) = Break /\ motor (snd (Left_body d s)) = stop_command.
Proof.
  intros Hpos.
  assert (H38 : fle (float_of_Z 38) d && fle d (float_of_Z 39) = false).
  { destruct (fle (float_of_Z 38) d) eqn:H; [|reflexivity]. exfalso.
    assert (Hz : flt zero (float_of_Z 38) = true) by (vm_compute; reflexivity).
    assert (K : flt zero d = true) by (eapply flt_fle_trans; eassumption).
    congruence. }
  assert (H39 : flt (float_of_Z 39) d = false).
  { destruct (flt (float_of_Z 39) d) eqn:H; [|reflexivity]. exfalso.
    assert (Hz : flt zero (float_of_Z 39) = true) by (vm_compute; reflexivity).
    assert (K : flt zero d = true) by (eapply flt_trans; eassumption).
    congruence. }
  cbv [zero] in Hpos.
  run_body. rewrite H38, Hpos, H39. finish_body.
Qed.

(** A loop body executes [break] exactly on the samples in the band and,
    for [Left], on the samples that are not positive; whenever it does, it
    has written the stop command. *)
Lemma body_exit (t : target) (d : spec_float) (s : board) :
  fst (body_of t d s) = (if exits t d then Break else Continue) /\
  (exits t d = true -> motor (snd (body_of t d s)) = stop_command).
Proof.
  destruct (exits t d) eqn:He.
  - assert (H : fst (body_of t d s) = Break /\
                motor (snd (body_of t d s)) = stop_command).
    { unfold exits in He. destruct (in_band t d) eqn:Hb.
      - now apply body_in_band.
      - destruct t; try discriminate. cbn [orb] in He.
        apply negb_true_iff in He. now apply Left_not_positive. }
    split; [apply H|]. intros _. apply H.
  - split; [|discriminate]. apply body_keeps_seeking.
    now rewrite keeps_seeking_exits, He.
Qed.

Lemma exits_reading (t : target) (echo : Z) :
  exits t (reading echo) = exits_on_echo t (to_long echo).
Proof.
  unfold exits, exits_on_echo.
  rewrite (in_band_reading t echo). f_equal.
  destruct t; try reflexivity.
  destruct (reading_sign echo) as [Hp Hn].
  destruct (Z.leb_spec (to_long echo) 147) as [H|H].
  - apply Hn in H. now rewrite (flt_irrefl_sym _ _ H).
  - assert (E : flt zero (reading echo) = true) by (apply Hp; lia).
    now rewrite E.
Qed.

Lemma iteration_exit (t : target) (echo : Z) (s : board) :
  fst (iteration (body_of t) echo s) =
    (if exits_on_echo t (to_long echo) then Break else Continue) /\
  (fst (iteration (body_of t) echo s) = Break ->
   motor (snd (iteration (body_of t) echo s)) = stop_command).
Proof.
  rewrite iteration_eq.
  destruct (body_exit t (reading echo) (snd (distance echo s))) as [Hc Hm].
  rewrite Hc, exits_reading in *.
  split; [reflexivity|].
  destruct (exits_on_echo t (to_long echo)); [intros _; now apply Hm|].
  discriminate.
Qed.

(** X3: an iteration of a seek loop leaves the loop exactly when the
    duration the sensor delivered lies in the window of the target or, for
    [Left], is at most 147 microseconds (no echo, an echo from closer than
    the offset, a duration that wraps); whenever it leaves the loop, the
    stop command is on the outputs.  On samples, a loop body executes
    [break] exactly in the band and, for [Left], at or below zero. *)
Theorem iteration_breaks_iff (t : target) (echo : Z) (s : board) :
  fst (iteration (body_of t) echo s) =
    (if exits_on_echo t (to_long echo) then Break else Continue) /\
  (fst (iteration (body_of t) echo s) = Break ->
   motor (snd (iteration (body_of t) echo s)) = stop_command) /\
  (forall d, fst (body_of t d s) = if exits t d then Break else Continue).
Proof.
  destruct (iteration_exit t echo s) as [Hc Hm].
  split; [exact Hc|]. split; [exact Hm|].
  intros d. apply body_exit.
Qed.

(** What a loop body leaves in the globals. *)
Lemma body_globals (t : target) (d : spec_float) (s : board) :
  duration (snd (body_of t d s)) = duration s /\
  distance1 (snd (body_of t d s)) = d /\
  page2 (snd (body_of t d s)) = page2 s.
Proof.
  destruct t; run_body;
    repeat match goal with
           | |- context [if ?b then _ else _] => destruct b
           end; repeat split.
Qed.

(** ** The echo on which a seek returns *)

Lemma while_true_find {A} (body : A -> io ctl) (brk : A -> bool) :
  (forall x s, fst (body x s) = if brk x then Break else Continue) ->
  forall inputs s,
    match find brk inputs with
    | Some x => exists s0, while_true body inputs s = (Arrived, snd (body x s0))
    | None => fst (while_true body inputs s) = Approaching
    end.
Proof.
  intros Hbrk inputs. induction inputs as [|x rest IH]; intros s.
  - reflexivity.
  - cbn [find]. rewrite while_true_cons, Hbrk.
    destruct (brk x).
    + now exists s.
    + apply IH.
Qed.

Lemma report_fields (status : string) (s : board) :
  duration (snd (report status s)) = duration s /\
  distance1 (snd (report status s)) = distance1 s /\
  motor (snd (report status s)) = motor s /\
  page2 (snd (report status s)) = status.
Proof. repeat split. Qed.

(** X4: a seek returns exactly when the sensor delivers a duration on
    which its loop is left, and it returns on the first of them: the board
    then holds that duration and its sample, the motor is stopped and
    [page2] is the status of the target.  What the sensor would deliver
    afterwards is never asked for. *)
Theorem seek_returns_on_first_exit (t : target) (echoes : list Z)
  (s : board) :
  match find (fun echo => exits_on_echo t (to_long echo)) echoes with
  | Some echo =>
      fst (seek t echoes s) = Arrived /\
      duration (snd (seek t echoes s)) = to_long echo /\
      distance1 (snd (seek t echoes s)) = reading echo /\
      motor (snd (seek t echoes s)) = stop_command /\
      page2 (snd (seek t echoes s)) = status_message t
  | None => fst (seek t echoes s) = Approaching
  end.
Proof.
  pose proof (while_true_find (iteration (body_of t))
                (fun echo => exits_on_echo t (to_long echo))
                (fun x s0 => proj1 (iteration_exit t x s0)) echoes s) as Hfind.
  rewrite seek_eq.
  destruct (find (fun echo => exits_on_echo t (to_long echo)) echoes)
    as [echo|] eqn:Hf.
  - destruct Hfind as [s0 Hw].
    assert (Hex : exits_on_echo t (to_long echo) = true)
      by (apply (find_some _ _ Hf)).
    unfold handler. rewrite Hw. cbn [fst snd].
    split; [reflexivity|].
    destruct (iteration_exit t echo s0) as [Hc Hstop].
    rewrite Hex in Hc. specialize (Hstop Hc).
    rewrite iteration_eq in *.
    destruct (body_globals t (reading echo) (snd (distance echo s0)))
      as (Hdur & Hd1 & _).
    destruct (report_fields (status_message t)
                (snd (body_of t (reading echo) (snd (distance echo s0)))))
      as (-> & -> & -> & ->).
    rewrite Hdur, Hd1, distance_duration.
    split; [reflexivity|].
    split; [reflexivity|]. split; [exact Hstop|reflexivity].
  - now rewrite handler_phase.
Qed.

(** ** Responses and trigger pulses *)

Lemma body_trace (t : target) (d : spec_float) (s : board) :
  responses (snd (body_of t d s)) = responses s /\
  pulses (snd (body_of t d s)) = pulses s.
Proof.
  destruct t; run_body;
    repeat match goal with
           | |- context [if ?b then _ else _] => destruct b
           end; split; reflexivity.
Qed.

Lemma distance_trace (echo : Z) (s : board) :
  responses (snd (distance echo s)) = responses s /\
  pulses (snd (distance echo s)) = S (pulses s).
Proof. split; reflexivity. Qed.

Lemma iteration_trace (t : target) (echo : Z) (s : board) :
  responses (snd (iteration (body_of t) echo s)) = responses s /\
  pulses (snd (iteration (body_of t) echo s)) = S (pulses s) /\
  page2 (snd (iteration (body_of t) echo s)) = page2 s.
Proof.
  rewrite iteration_eq.
  destruct (body_trace t (reading echo) (snd (distance echo s))) as [-> ->].
  destruct (body_globals t (reading echo) (snd (distance echo s)))
    as (_ & _ & ->).
  destruct (distance_trace echo s) as [-> ->].
  repeat split.
Qed.

Lemma while_true_keeps {A B} (body : A -> io ctl) (f : board -> B) :
  (forall x s, f (snd (body x s)) = f s) ->
  forall inputs s, f (snd (while_true body inputs s)) = f s.
Proof.
  intros Hbody inputs. induction inputs as [|x rest IH]; intros s.
  - reflexivity.
  - rewrite while_true_cons. destruct (fst (body x s)).
    + rewrite IH. apply Hbody.
    + apply Hbody.
Qed.

Lemma while_true_counts {A} (body : A -> io ctl) (f : board -> nat) :
  (forall x s, f (snd (body x s)) = S (f s)) ->
  forall inputs s,
    fst (while_true body inputs s) = Approaching ->
    f (snd (while_true body inputs s)) = (List.length inputs + f s)%nat.
Proof.
  intros Hbody inputs. induction inputs as [|x rest IH]; intros s.
  - reflexivity.
  - rewrite while_true_cons. destruct (fst (body x s)); [|discriminate].
    intros H. rewrite (IH _ H), Hbody. cbn [List.length]. lia.
Qed.

Lemma while_true_stopped {A} (body : A -> io ctl) :
  (forall x s, fst (body x s) = Break ->
               motor (snd (body x s)) = stop_command) ->
  forall inputs s,
    fst (while_true body inputs s) = Arrived ->
    motor (snd (while_true body inputs s)) = stop_command.
Proof.
  intros Hbody inputs. induction inputs as [|x rest IH]; intros s.
  - discriminate.
  - rewrite while_true_cons. destruct (fst (body x s)) eqn:Hc.
    + apply IH.
    + intros _. now apply Hbody.
Qed.

(** What a handler has done when it has returned, and what it has not done
    while it has not. *)
Lemma seek_effect (t : target) (echoes : list Z) (s : board) :
  match fst (seek t echoes s) with
  | Arrived =>
      responses (snd (seek t echoes s)) =
        ServerSend 200 "text/html" (page s ++ status_message t)
        :: responses s /\
      motor (snd (seek t echoes s)) = stop_command
  | Approaching =>
      snd (seek t echoes s)
        = snd (while_true (iteration (body_of t)) echoes s) /\
      responses (snd (seek t echoes s)) = responses s /\
      page2 (snd (seek t echoes s)) = page2 s
  end.
Proof.
  rewrite seek_eq.
  pose proof (while_true_keeps (iteration (body_of t)) responses
                (fun x s0 => proj1 (iteration_trace t x s0)) echoes s)
    as Hresp.
  pose proof (while_true_keeps (iteration (body_of t)) page2
                (fun x s0 => proj2 (proj2 (iteration_trace t x s0))) echoes s)
    as Hp2.
  pose proof (while_true_page (iteration (body_of t))
                (fun x s0 => eq_trans
                   (f_equal (fun r => page (snd r))
                            (iteration_eq (body_of t) x s0))
                   (eq_trans (body_page t _ _)
                             (proj1 (proj2 (distance_frame x s0)))))
                echoes s) as Hpage.
  pose proof (while_true_stopped (iteration (body_of t))
                (fun x s0 => proj2 (iteration_exit t x s0)) echoes s)
    as Hstop.
  rewrite handler_phase, handler_motor.
  unfold handler.
  destruct (while_true (iteration (body_of t)) echoes s) as [[] s'];
    cbn [fst snd] in *.
  - split; [reflexivity|]. split; assumption.
  - split; [|apply Hstop; reflexivity].
    unfold responses in *. cbn. now rewrite Hresp, Hpage.
Qed.

(** X5: [Forward], [Backward] and [Left] answer their request once, when
    they return, with the page followed by the status of their floor, and
    send nothing while they are in their loop, where [page2] is still the
    status of the previous request; whenever one of them returns, through
    whichever [break], the motor is stopped. *)
Theorem seek_answers_on_return (t : target) (echoes : list Z) (s : board) :
  match fst (seek t echoes s) with
  | Arrived =>
      responses (snd (seek t echoes s)) =
        ServerSend 200 "text/html" (page s ++ status_message t)
        :: responses s /\
      motor (snd (seek t echoes s)) = stop_command
  | Approaching =>
      responses (snd (seek t echoes s)) = responses s /\
      page2 (snd (seek t echoes s)) = page2 s
  end.
Proof.
  pose proof (seek_effect t echoes s) as H.
  destruct (fst (seek t echoes s)); [apply H|exact H].
Qed.

Lemma forallb_repeat {A} (f : A -> bool) (x : A) (n : nat) :
  f x = true -> forallb f (repeat x n) = true.
Proof.
  intros H. induction n as [|n IH]; [reflexivity|]. cbn. now rewrite H.
Qed.

(** X6: the loops have no iteration cap.  On echoes whose samples keep a
    handler seeking, the seek is still in its loop after all of them, has
    triggered the sensor once per echo and has answered nothing; and there
    are such echo sequences of every length, an object held at 14.5 cm
    (echoes of 1000 microseconds) being one for all three targets. *)
Theorem seek_has_no_iteration_cap (t : target) (echoes : list Z)
  (s : board) :
  forallb (fun echo => keeps_seeking t (reading echo)) echoes = true ->
  (fst (seek t echoes s) = Approaching /\
   pulses (snd (seek t echoes s)) = (List.length echoes + pulses s)%nat /\
   responses (snd (seek t echoes s)) = responses s) /\
  (forall n, fst (seek t (repeat 1000 n) s) = Approaching).
Proof.
  intros H.
  assert (Hphase : fst (seek t echoes s) = Approaching)
    by (apply seek_still_approaching; exact H).
  pose proof (seek_effect t echoes s) as He. rewrite Hphase in He.
  destruct He as (Hs & Hr & _).
  split; [split; [exact Hphase|split; [|exact Hr]]|].
  - rewrite Hs. apply (while_true_counts (iteration (body_of t)) pulses
                         (fun x s0 => proj1 (proj2 (iteration_trace t x s0)))).
    rewrite <- handler_phase with (status := status_message t).
    rewrite <- seek_eq. exact Hphase.
  - intros n. apply seek_still_approaching. apply forallb_repeat.
    destruct t; vm_compute; reflexivity.
Qed.

Lemma seek_has_no_iteration_cap_witness :
  forallb (fun echo => keeps_seeking First (reading echo)) [1000; 7000; 5000]
    = true /\
  fst (seek First [1000; 7000; 5000] board0) = Approaching /\
  pulses (snd (seek First [1000; 7000; 5000] board0)) = 3%nat.
Proof.
  assert (H : forallb (fun echo => keeps_seeking First (reading echo))
                [1000; 7000; 5000] = true) by (vm_compute; reflexivity).
  split; [exact H|].
  destruct (seek_has_no_iteration_cap First [1000; 7000; 5000] board0 H)
    as [(Hp & Hn & _) _].
  split; [exact Hp|exact Hn].
Defined.

(** X7: a duration of at most 147 microseconds in the [long] (no echo, an
    echo from closer than the offset, a duration of [2 ^ 31] or more that
    wraps) makes every handler write the stop command; [Forward] and
    [Backward] then sample again, [Left] leaves its loop. *)
Theorem short_echo_stops_motor (t : target) (echo : Z) (s : board) :
  to_long echo <= 147 ->
  motor (snd (iteration (body_of t) echo s)) = stop_command /\
  fst (iteration (body_of t) echo s) =
    match t with Second => Break | _ => Continue end.
Proof.
  intros H. rewrite iteration_eq.
  apply body_non_positive. apply flt_fle.
  apply (reading_sign echo). exact H.
Qed.

Lemma short_echo_stops_motor_witness :
  (to_long 100 <= 147 /\
   motor (snd (iteration (body_of Ground) 100 board0)) = stop_command) /\
  (to_long 4294967295 <= 147 /\
   fst (iteration (body_of Second) 4294967295 board0) = Break).
Proof.
  assert (H1 : to_long 100 <= 147) by (vm_compute; discriminate).
  assert (H2 : to_long 4294967295 <= 147) by (vm_compute; discriminate).
  split.
  - split; [exact H1|].
    exact (proj1 (short_echo_stops_motor Ground 100 board0 H1)).
  - split; [exact H2|].
    exact (proj2 (short_echo_stops_motor Second 4294967295 board0 H2)).
Defined.

(** ** The order of the two writes of a command *)

Lemma firstn_length_app {A} (l l' : list A) :
  firstn (List.length l) (l ++ l') = l.
Proof. induction l as [|x l IH]; [reflexivity|]. cbn. now rewrite IH. Qed.

Lemma run_of_since (s s' : board) (new : list event) :
  run_of s s' new -> events_since s s' = rev new.
Proof.
  intros [Ht _]. unfold events_since. rewrite Ht, length_app.
  replace (List.length new + List.length (trace s) - List.length (trace s))%nat
    with (List.length new) by lia.
  now rewrite firstn_length_app.
Qed.

Lemma passes_app (c : level * level) (a b : list event) :
  passes c (a ++ b) = (passes c a ++ passes (fold_left apply_write a c) b)%list.
Proof.
  revert c. induction a as [|e a IH]; intros c; [reflexivity|].
  cbn [app passes fold_left]. now rewrite IH.
Qed.

Lemma run_of_trans (s s1 s2 : board) (new1 new2 : list event) :
  run_of s s1 new1 -> run_of s1 s2 new2 -> run_of s s2 (new2 ++ new1).
Proof.
  intros [Ht1 Hm1] [Ht2 Hm2]. split.
  - now rewrite Ht2, Ht1, app_assoc.
  - now rewrite rev_app_distr, fold_left_app, Hm1.
Qed.

Lemma runs_within_refl (P : level * level -> bool) (s : board) :
  runs_within P s s.
Proof. exists []. split; [split|]; reflexivity. Qed.

Lemma runs_within_trans (P : level * level -> bool) (s s1 s2 : board) :
  runs_within P s s1 -> runs_within P s1 s2 -> runs_within P s s2.
Proof.
  intros (new1 & Hr1 & Hp1) (new2 & Hr2 & Hp2).
  exists (new2 ++ new1)%list. split; [exact (run_of_trans _ _ _ _ _ Hr1 Hr2)|].
  rewrite rev_app_distr, passes_app, forallb_app, Hp1.
  destruct Hr1 as [_ ->]. exact Hp2.
Qed.

Lemma runs_within_since (P : level * level -> bool) (s s' : board) :
  runs_within P s s' -> forallb P (outputs_between s s') = true.
Proof.
  intros (new & Hr & Hp). unfold outputs_between.
  now rewrite (run_of_since s s' new Hr).
Qed.

Lemma runs_within_end (P : level * level -> bool) (s s' : board) :
  runs_within P s s' -> P (motor s) = true -> P (motor s') = true.
Proof.
  intros (new & [_ Hm] & Hp). rewrite <- Hm. clear Hm.
  revert Hp. generalize (motor s) (rev new). intros c es. revert c.
  induction es as [|e es IH]; intros c Hp Hc; [exact Hc|].
  cbn [passes forallb fold_left] in *.
  apply andb_prop in Hp as [H1 H2]. now apply IH.
Qed.

Lemma while_true_within {A} (body : A -> io ctl)
  (P : level * level -> bool) :
  (forall x s, P (motor s) = true -> runs_within P s (snd (body x s))) ->
  forall inputs s,
    P (motor s) = true -> runs_within P s (snd (while_true body inputs s)).
Proof.
  intros Hbody inputs. induction inputs as [|x rest IH]; intros s Hs.
  - apply runs_within_refl.
  - rewrite while_true_cons.
    pose proof (Hbody x s Hs) as Hx.
    destruct (fst (body x s)); cbn [snd].
    + apply (runs_within_trans P s (snd (body x s))); [exact Hx|].
      apply IH. apply (runs_within_end P s); [exact Hx|exact Hs].
    + exact Hx.
Qed.

(** [distance()] leaves the motor outputs alone. *)
Lemma distance_within (P : level * level -> bool) (echo : Z) (s : board) :
  P (motor s) = true -> runs_within P s (snd (distance echo s)).
Proof.
  intros Hs.
  exists [SerialPrintlnFloat (reading echo); SerialPrint "Distance (cm): ";
          DigitalWrite trigPin LOW; Delay 10; DigitalWrite trigPin HIGH;
          DelayMicroseconds 2; DigitalWrite trigPin LOW].
  split; [split; reflexivity|].
  cbn [rev app passes apply_write forallb]. now rewrite Hs.
Qed.

Ltac two_writes :=
  cbv [bind ret digitalWrite drive emit snd pinD1 pinD2 pinTrig duration
       distanceCm distance1 page page2 trace];
  lazymatch goal with
  | |- runs_within _ _ (mkBoard _ _ _ _ _ _ _ _ (?a :: ?b :: _)) =>
      exists [a; b]
  end.

Lemma Forward_body_within (d : spec_float) (s : board) :
  exclusive (motor s) = true ->
  runs_within exclusive s (snd (Forward_body d s)).
Proof.
  intros Hs. destruct s as [d1 d2 tg du dc di pg p2 tr].
  run_body.
  repeat match goal with
         | |- context [if ?b then _ else _] => destruct b
         end;
    two_writes; (split; [split; reflexivity|]);
    destruct d1, d2; try reflexivity; discriminate Hs.
Qed.

Lemma report_within (P : level * level -> bool) (status : string)
  (s : board) :
  P (motor s) = true -> runs_within P s (snd (report status s)).
Proof.
  intros Hs.
  exists [ServerSend 200 "text/html" (page s ++ status)].
  split; [split; reflexivity|].
  cbn [rev app passes apply_write forallb]. now rewrite Hs.
Qed.

(** X8: [Forward] and the [/Stop] route never pass through both outputs
    HIGH: from outputs that are not both HIGH, after every event of a run
    of [Forward], on any echoes, and of [/Stop], at most one of [D1] and
    [D2] is HIGH, the instants between the two writes of a command
    included. *)
Theorem Forward_never_both_high (echoes : list Z) (s : board) :
  exclusive (motor s) = true ->
  forallb exclusive (outputs_between s (snd (Forward echoes s))) = true /\
  forallb exclusive (outputs_between s (snd (Stop s))) = true.
Proof.
  intros Hs. split.
  - apply runs_within_since.
    assert (Hloop : runs_within exclusive s
                      (snd (while_true (iteration Forward_body) echoes s))).
    { apply while_true_within; [|exact Hs].
      intros x s0 Hs0. rewrite iteration_eq.
      apply (runs_within_trans _ s0 (snd (distance x s0))).
      - now apply distance_within.
      - apply Forward_body_within.
        apply (runs_within_end exclusive s0); [|exact Hs0].
        now apply distance_within. }
    unfold Forward, handler.
    destruct (while_true (iteration Forward_body) echoes s) as [[] s'];
      cbn [snd] in *; [exact Hloop|].
    apply (runs_within_trans _ s s'); [exact Hloop|].
    apply report_within.
    apply (runs_within_end exclusive s); [exact Hloop|exact Hs].
  - apply runs_within_since.
    destruct s as [d1 d2 tg du dc di pg p2 tr].
    exists [Delay 200; DigitalWrite D1 LOW; DigitalWrite D2 LOW;
            ServerSend 200 "text/html"
              (pg ++ "<center><p> motor 1 Status : Off</p></center>")].
    split; [split; reflexivity|].
    destruct d1, d2; try reflexivity; discriminate Hs.
Qed.

Lemma Forward_never_both_high_witness :
  exclusive (motor board0) = true /\
  forallb exclusive
    (outputs_between board0 (snd (Forward [1000; 7000; 5970] board0))) = true.
Proof.
  assert (H : exclusive (motor board0) = true) by reflexivity.
  split; [exact H|].
  exact (proj1 (Forward_never_both_high [1000; 7000; 5970] board0 H)).
Defined.

(** X9: [Backward] and [Left] pass through both outputs HIGH when they
    reverse from the increasing-distance command to the decreasing one:
    the branch for samples above the band writes [D1] HIGH before [D2]
    LOW.  [Left] does so in the other direction too: its branch for
    samples below the band writes [D2] HIGH before [D1] LOW. *)
Theorem reversal_passes_both_high (t : target) (d : spec_float) (s : board) :
  (enforces_upper t = true ->
   flt (upper t) d = true ->
   motor s = increasing_command ->
   In (HIGH, HIGH) (outputs_between s (snd (body_of t d s)))) /\
  (t = Second ->
   flt zero d = true ->
   flt d (lower t) = true ->
   motor s = decreasing_command ->
   In (HIGH, HIGH) (outputs_between s (snd (body_of t d s)))).
Proof.
  split.
  - intros Hen Hup Hm.
    destruct (above_band_guards t d Hup) as [Hhi Hlo].
    assert (Hr : run_of s (snd (body_of t d s))
                   [DigitalWrite D2 LOW; DigitalWrite D1 HIGH]).
    { destruct s as [d1 d2 tg du dc di pg p2 tr].
      destruct t; [discriminate Hen| |]; run_body;
        cbv [lower upper] in Hup, Hhi, Hlo;
        rewrite Hhi, Hlo, Hup, ?andb_false_r; cbv [andb];
        split; reflexivity. }
    unfold outputs_between. rewrite (run_of_since _ _ _ Hr), Hm.
    left. reflexivity.
  - intros -> Hpos Hlo Hm.
    assert (Hband : fle (float_of_Z 38) d = false)
      by (apply (flt_not_fle _ _ Hlo)).
    assert (Hr : run_of s (snd (Left_body d s))
                   [DigitalWrite D1 LOW; DigitalWrite D2 HIGH]).
    { destruct s as [d1 d2 tg du dc di pg p2 tr].
      run_body. cbv [zero lower] in Hpos, Hlo.
      rewrite Hband, Hpos, Hlo. cbv [andb].
      split; reflexivity. }
    unfold outputs_between, body_of.
    rewrite (run_of_since _ _ _ Hr), Hm.
    left. reflexivity.
Qed.

Lemma reversal_passes_both_high_witness :
  motor (snd (iteration (body_of First) 4300 board0)) = increasing_command /\
  flt (upper First) (reading 4360) = true /\
  In (HIGH, HIGH)
     (outputs_between (snd (iteration (body_of First) 4300 board0))
        (snd (body_of First (reading 4360)
                (snd (iteration (body_of First) 4300 board0))))).
Proof.
  assert (Hm : motor (snd (iteration (body_of First) 4300 board0))
               = increasing_command) by (vm_compute; reflexivity).
  assert (Hup : flt (upper First) (reading 4360) = true)
    by (vm_compute; reflexivity).
  split; [exact Hm|]. split; [exact Hup|].
  exact (proj1 (reversal_passes_both_high First (reading 4360)
                  (snd (iteration (body_of First) 4300 board0)))
               eq_refl Hup Hm).
Defined.

(** ** The server between requests *)






(** ** The two end-to-end runs of the specification *)

(** A sensor that returns 120, 110, 99 for the [Ground] target: twice
    [Approaching], then [Arrived] with the status of the Ground floor. *)
Example Ground_run :
  fst (while_true Forward_body (map float_of_Z [120]) board0) = Approaching /\
  fst (while_true Forward_body (map float_of_Z [120; 110]) board0)
    = Approaching /\
  fst (handler Forward_body (status_message Ground)
         (map float_of_Z [120; 110; 99]) board0) = Arrived /\
  page2 (snd (handler Forward_body (status_message Ground)
                (map float_of_Z [120; 110; 99]) board0))
    = status_message Ground.
Proof.
  split; [vm_compute; reflexivity|].
  split; [vm_compute; reflexivity|].
  split; vm_compute; reflexivity.
Qed.

(** A sensor that returns -1, 0, 71.2 for the [First] target: the first
    two samples leave the motor idle and the seek [Approaching], the third
    arrives. *)
Example First_run :
  let samples :=
    [float_of_Z (-1); float_of_Z 0; float_of_double (double_lit 712 10)] in
  while_true Backward_body (firstn 2 samples) board0 =
    (Approaching,
     snd (Backward_body (float_of_Z 0)
            (snd (Backward_body (float_of_Z (-1)) board0)))) /\
  motor (snd (while_true Backward_body (firstn 1 samples) board0))
    = stop_command /\
  motor (snd (while_true Backward_body (firstn 2 samples) board0))
    = stop_command /\
  fst (handler Backward_body (status_message First) samples board0)
    = Arrived.
Proof.
  split; [vm_compute; reflexivity|].
  split; [vm_compute; reflexivity|].
  split; vm_compute; reflexivity.
Qed.
